(** * Invariant point attention: a shallow embedding of
      [invariant_point_attention/invariant_point_attention.py]

    Conventions of the embedding.
    - A float tensor is a shape (the list of its axis lengths) together with
      its entries, read through a multi-index; the entries are real numbers,
      so every statement about values is about the computation in exact
      arithmetic (the idealisation behind "up to floating tolerance").
    - Every torch / einops call that can raise on shapes returns a [result]:
      [Ok] with the new tensor or [Err] with the statement that raised and
      the shapes of its operands.  [forward] threads these in source order,
      so the first failing statement of the Python code is the one reported.
    - Broadcasting follows torch: shapes are aligned on the right and an
      axis of length 1 is stretched. *)

From Stdlib Require Import Reals Lra Lia List Arith PeanoNat Bool String Permutation.
Import ListNotations.

Local Open Scope string_scope.
Local Open Scope nat_scope.
Local Open Scope list_scope.

(** ** Errors *)

Inductive result (A : Type) : Type :=
| Ok (a : A)
| Err (site : string) (shapes : list (list nat)).

Arguments Ok {A} a.
Arguments Err {A} site shapes.

Definition bind {A B : Type} (r : result A) (k : A -> result B) : result B :=
  match r with
  | Ok a => k a
  | Err site shapes => Err site shapes
  end.

Notation "x <- e ;; k" := (bind e (fun x => k))
  (at level 61, e at next level, right associativity).

(** ** Tensors *)

Record tensor : Type := mkT { shape : list nat; val : list nat -> R }.

Record btensor : Type := mkB { bshape : list nat; bval : list nat -> bool }.

(** Sum of [f 0 .. f (n-1)]: every reduction of the program is one of these. *)
Definition rsum (n : nat) (f : nat -> R) : R :=
  fold_right Rplus 0%R (map f (seq 0 n)).

(** *** Broadcasting *)

(** Length of a broadcast axis, when the two lengths are compatible. *)
Definition bdim (a b : nat) : option nat :=
  if a =? b then Some a
  else if a =? 1 then Some b
  else if b =? 1 then Some a
  else None.

(** Position read in an axis of length [n] for position [i] of the
    broadcast axis. *)
Definition bc (n i : nat) : nat := if n =? 1 then 0 else i.

Fixpoint broadcast_rev (a b : list nat) : option (list nat) :=
  match a, b with
  | [], _ => Some b
  | _, [] => Some a
  | x :: a', y :: b' =>
      match bdim x y, broadcast_rev a' b' with
      | Some d, Some r => Some (d :: r)
      | _, _ => None
      end
  end.

Definition broadcast_shapes (a b : list nat) : option (list nat) :=
  option_map (@rev nat) (broadcast_rev (rev a) (rev b)).

Fixpoint map2 {A B C : Type} (f : A -> B -> C) (l : list A) (m : list B) : list C :=
  match l, m with
  | x :: l', y :: m' => f x y :: map2 f l' m'
  | _, _ => []
  end.

(** Index into an operand of shape [s] for index [idx] of the broadcast
    result. *)
Definition bidx (s idx : list nat) : list nat :=
  map2 bc s (skipn (List.length idx - List.length s) idx).

Definition broadcast2 (site : string) (f : R -> R -> R) (a b : tensor) : result tensor :=
  match broadcast_shapes (shape a) (shape b) with
  | Some s => Ok (mkT s (fun idx => f (val a (bidx (shape a) idx)) (val b (bidx (shape b) idx))))
  | None => Err site [shape a; shape b]
  end.

Definition bbroadcast2 (site : string) (f : bool -> bool -> bool) (a b : btensor) : result btensor :=
  match broadcast_shapes (bshape a) (bshape b) with
  | Some s => Ok (mkB s (fun idx => f (bval a (bidx (bshape a) idx)) (bval b (bidx (bshape b) idx))))
  | None => Err site [bshape a; bshape b]
  end.

(** Elementwise map (scalar multiples, [** 2], [F.softplus], [~]). *)
Definition tmap (f : R -> R) (t : tensor) : tensor :=
  mkT (shape t) (fun idx => f (val t idx)).

Definition bnot (m : btensor) : btensor :=
  mkB (bshape m) (fun idx => negb (bval m idx)).

(** [t.masked_fill(m, v)]: out of place, mask and tensor are broadcast
    against each other. *)
Definition masked_fill (site : string) (t : tensor) (m : btensor) (v : R) : result tensor :=
  match broadcast_shapes (shape t) (bshape m) with
  | Some s => Ok (mkT s (fun idx => if bval m (bidx (bshape m) idx) then v
                                    else val t (bidx (shape t) idx)))
  | None => Err site [shape t; bshape m]
  end.

(** *** nn.Linear *)

Record Linear : Type := mkLinear {
  in_features : nat;
  out_features : nat;
  weight : nat -> nat -> R;        (* weight[out][in] *)
  bias : option (nat -> R)
}.

Definition linear_val (l : Linear) (t : tensor) (idx : list nat) : R :=
  let pre := removelast idx in
  let o := last idx 0 in
  let s := rsum (in_features l) (fun c => (val t (pre ++ [c]) * weight l o c)%R) in
  match bias l with
  | Some b => (s + b o)%R
  | None => s
  end.

Definition linear (site : string) (l : Linear) (t : tensor) : result tensor :=
  match rev (shape t) with
  | d :: pre =>
      if d =? in_features l
      then Ok (mkT (rev (out_features l :: pre)) (linear_val l t))
      else Err site [shape t; [out_features l; in_features l]]
  | [] => Err site [shape t; [out_features l; in_features l]]
  end.

(** *** Reductions and softmax *)

(** [t.sum(dim = -1)] *)
Definition sum_last (site : string) (t : tensor) : result tensor :=
  match rev (shape t) with
  | k :: pre => Ok (mkT (rev pre) (fun idx => rsum k (fun c => val t (idx ++ [c]))))
  | [] => Err site [shape t]
  end.

(** [t.sum(dim = -2)] *)
Definition sum_penultimate (site : string) (t : tensor) : result tensor :=
  match rev (shape t) with
  | l :: k :: pre =>
      Ok (mkT (rev (l :: pre))
              (fun idx => rsum k (fun d => val t (removelast idx ++ [d; last idx 0]))))
  | _ => Err site [shape t]
  end.

(** [t.softmax(dim = -1)] *)
Definition softmax_val (k : nat) (t : tensor) (idx : list nat) : R :=
  (exp (val t idx) / rsum k (fun c => exp (val t (removelast idx ++ [c]))))%R.

Definition softmax (site : string) (t : tensor) : result tensor :=
  match rev (shape t) with
  | k :: _ => Ok (mkT (shape t) (softmax_val k t))
  | [] => Err site [shape t]
  end.

(** [F.softplus] with torch's defaults (beta = 1, threshold = 20): linear
    above the threshold. *)
Definition softplus (x : R) : R :=
  if Rlt_dec 20 x then x else ln (1 + exp x)%R.

(** *** einops rearrange / repeat, one definition per pattern of the source *)

(** [rearrange(t, 'b n (h d) -> (b h) n d', h = h)] *)
Definition split_heads (site : string) (h : nat) (t : tensor) : result tensor :=
  match shape t with
  | [b; n; hd] =>
      if (0 <? h) && (hd mod h =? 0)
      then let d := hd / h in
           Ok (mkT [b * h; n; d]
                   (fun idx => match idx with
                               | [bh; i; e] => val t [bh / h; i; (bh mod h) * d + e]
                               | _ => 0%R
                               end))
      else Err site [shape t]
  | _ => Err site [shape t]
  end.

(** [rearrange(t, 'b n (h d c) -> (b h) n d c', h = h, c = c)] *)
Definition split_point_heads (site : string) (h c : nat) (t : tensor) : result tensor :=
  match shape t with
  | [b; n; hdc] =>
      if (0 <? h * c) && (hdc mod (h * c) =? 0)
      then let d := hdc / (h * c) in
           Ok (mkT [b * h; n; d; c]
                   (fun idx => match idx with
                               | [bh; i; e; a] => val t [bh / h; i; ((bh mod h) * d + e) * c + a]
                               | _ => 0%R
                               end))
      else Err site [shape t]
  | _ => Err site [shape t]
  end.

(** The layer [Rearrange('b ... h -> (b h) ...')]: [h] is the length of the
    last axis of its input. *)
Definition fold_heads (site : string) (t : tensor) : result tensor :=
  match shape t with
  | b :: rest =>
      match rev rest with
      | h :: mid =>
          Ok (mkT (b * h :: rev mid)
                  (fun idx => match idx with
                              | bh :: r => val t ((bh / h) :: r ++ [bh mod h])
                              | [] => 0%R
                              end))
      | [] => Err site [shape t]
      end
  | [] => Err site [shape t]
  end.

(** [rearrange(t, 'b i d c -> b i () d c')] *)
Definition unsqueeze_key_axis (site : string) (t : tensor) : result tensor :=
  match shape t with
  | [b; i; d; c] =>
      Ok (mkT [b; i; 1; d; c]
              (fun idx => match idx with
                          | [b'; i'; _; d'; c'] => val t [b'; i'; d'; c']
                          | _ => 0%R
                          end))
  | _ => Err site [shape t]
  end.

(** [rearrange(t, 'b j d c -> b () j d c')] *)
Definition unsqueeze_query_axis (site : string) (t : tensor) : result tensor :=
  match shape t with
  | [b; j; d; c] =>
      Ok (mkT [b; 1; j; d; c]
              (fun idx => match idx with
                          | [b'; _; j'; d'; c'] => val t [b'; j'; d'; c']
                          | _ => 0%R
                          end))
  | _ => Err site [shape t]
  end.

(** [rearrange(mask, 'b i -> b i ()')] *)
Definition mask_rows (site : string) (m : btensor) : result btensor :=
  match bshape m with
  | [b; i] =>
      Ok (mkB [b; i; 1]
              (fun idx => match idx with
                          | [b'; i'; _] => bval m [b'; i']
                          | _ => false
                          end))
  | _ => Err site [bshape m]
  end.

(** [rearrange(mask, 'b j -> b () j')] *)
Definition mask_cols (site : string) (m : btensor) : result btensor :=
  match bshape m with
  | [b; j] =>
      Ok (mkB [b; 1; j]
              (fun idx => match idx with
                          | [b'; _; j'] => bval m [b'; j']
                          | _ => false
                          end))
  | _ => Err site [bshape m]
  end.

(** [repeat(t, 'h -> (b h) () () ()', b = b)] *)
Definition repeat_heads (site : string) (b : nat) (t : tensor) : result tensor :=
  match shape t with
  | [h] =>
      Ok (mkT [b * h; 1; 1; 1]
              (fun idx => match idx with
                          | [bh; _; _; _] => val t [bh mod h]
                          | _ => 0%R
                          end))
  | _ => Err site [shape t]
  end.

(** [rearrange(t, '(b h) i j -> b h i j', h = h)] *)
Definition unfold_heads (site : string) (h : nat) (t : tensor) : result tensor :=
  match shape t with
  | [bh; i; j] =>
      if (0 <? h) && (bh mod h =? 0)
      then Ok (mkT [bh / h; h; i; j]
                   (fun idx => match idx with
                               | [b'; h'; i'; j'] => val t [b' * h + h'; i'; j']
                               | _ => 0%R
                               end))
      else Err site [shape t]
  | _ => Err site [shape t]
  end.

(** [rearrange(t, '(b h) n d -> b n (h d)', h = h)] *)
Definition merge_heads (site : string) (h : nat) (t : tensor) : result tensor :=
  match shape t with
  | [bh; n; d] =>
      if (0 <? h) && (bh mod h =? 0)
      then Ok (mkT [bh / h; n; h * d]
                   (fun idx => match idx with
                               | [b'; n'; e] => val t [b' * h + e / d; n'; e mod d]
                               | _ => 0%R
                               end))
      else Err site [shape t]
  | _ => Err site [shape t]
  end.

(** [rearrange(t, 'b h n d -> b n (h d)', h = h)] *)
Definition merge_head_axis (site : string) (h : nat) (t : tensor) : result tensor :=
  match shape t with
  | [b; h'; n; d] =>
      if h' =? h
      then Ok (mkT [b; n; h * d]
                   (fun idx => match idx with
                               | [b'; n'; e] => val t [b'; e / d; n'; e mod d]
                               | _ => 0%R
                               end))
      else Err site [shape t]
  | _ => Err site [shape t]
  end.

(** [rearrange(t, '(b h) n d c -> b n (h d c)', h = h)] *)
Definition merge_point_heads (site : string) (h : nat) (t : tensor) : result tensor :=
  match shape t with
  | [bh; n; d; c] =>
      if (0 <? h) && (bh mod h =? 0)
      then Ok (mkT [bh / h; n; h * d * c]
                   (fun idx => match idx with
                               | [b'; n'; e] =>
                                   val t [b' * h + e / (d * c); n'; (e / c) mod d; e mod c]
                               | _ => 0%R
                               end))
      else Err site [shape t]
  | _ => Err site [shape t]
  end.

(** *** einsum, one definition per equation of the source.  Axes named by
    the same letter are broadcast against each other. *)

(** [einsum('b i d, b j d -> b i j', x, y)] *)
Definition einsum_bid_bjd (site : string) (x y : tensor) : result tensor :=
  match shape x, shape y with
  | [b1; i; d1], [b2; j; d2] =>
      match bdim b1 b2, bdim d1 d2 with
      | Some b, Some d =>
          Ok (mkT [b; i; j]
                  (fun idx => match idx with
                              | [b'; i'; j'] =>
                                  rsum d (fun d' => (val x [bc b1 b'; i'; bc d1 d']
                                                     * val y [bc b2 b'; j'; bc d2 d'])%R)
                              | _ => 0%R
                              end))
      | _, _ => Err site [shape x; shape y]
      end
  | _, _ => Err site [shape x; shape y]
  end.

(** [einsum('b i j, b j d -> b i d', x, y)] *)
Definition einsum_bij_bjd (site : string) (x y : tensor) : result tensor :=
  match shape x, shape y with
  | [b1; i; j1], [b2; j2; d] =>
      match bdim b1 b2, bdim j1 j2 with
      | Some b, Some j =>
          Ok (mkT [b; i; d]
                  (fun idx => match idx with
                              | [b'; i'; d'] =>
                                  rsum j (fun j' => (val x [bc b1 b'; i'; bc j1 j']
                                                     * val y [bc b2 b'; bc j2 j'; d'])%R)
                              | _ => 0%R
                              end))
      | _, _ => Err site [shape x; shape y]
      end
  | _, _ => Err site [shape x; shape y]
  end.

(** [einsum('b h i j, b i j d -> b h i d', x, y)] *)
Definition einsum_bhij_bijd (site : string) (x y : tensor) : result tensor :=
  match shape x, shape y with
  | [b1; h; i1; j1], [b2; i2; j2; d] =>
      match bdim b1 b2, bdim i1 i2, bdim j1 j2 with
      | Some b, Some i, Some j =>
          Ok (mkT [b; h; i; d]
                  (fun idx => match idx with
                              | [b'; h'; i'; d'] =>
                                  rsum j (fun j' => (val x [bc b1 b'; h'; bc i1 i'; bc j1 j']
                                                     * val y [bc b2 b'; bc i2 i'; bc j2 j'; d'])%R)
                              | _ => 0%R
                              end))
      | _, _, _ => Err site [shape x; shape y]
      end
  | _, _ => Err site [shape x; shape y]
  end.

(** [einsum('b i j, b j d c -> b i d c', x, y)] *)
Definition einsum_bij_bjdc (site : string) (x y : tensor) : result tensor :=
  match shape x, shape y with
  | [b1; i; j1], [b2; j2; d; c] =>
      match bdim b1 b2, bdim j1 j2 with
      | Some b, Some j =>
          Ok (mkT [b; i; d; c]
                  (fun idx => match idx with
                              | [b'; i'; d'; c'] =>
                                  rsum j (fun j' => (val x [bc b1 b'; i'; bc j1 j']
                                                     * val y [bc b2 b'; bc j2 j'; d'; c'])%R)
                              | _ => 0%R
                              end))
      | _, _ => Err site [shape x; shape y]
      end
  | _, _ => Err site [shape x; shape y]
  end.

(** *** torch.cat along the last axis: all other axes must agree *)

Fixpoint shape_eqb (a b : list nat) : bool :=
  match a, b with
  | [], [] => true
  | x :: a', y :: b' => (x =? y) && shape_eqb a' b'
  | _, _ => false
  end.

Definition cat_last (site : string) (a b : tensor) : result tensor :=
  match rev (shape a), rev (shape b) with
  | da :: pa, db :: pb =>
      if shape_eqb pa pb
      then Ok (mkT (rev ((da + db) :: pa))
                   (fun idx => let e := last idx 0 in
                               if e <? da then val a idx
                               else val b (removelast idx ++ [e - da])))
      else Err site [shape a; shape b]
  | _, _ => Err site [shape a; shape b]
  end.

(** ** Helpers of the source *)

Definition default {A : Type} (v : option A) (d : A) : A :=
  match v with Some a => a | None => d end.

(** What [torch.finfo(dtype)] gives for a floating dtype.  torch raises
    unless the inputs of a module have the dtype of its parameters, so one
    dtype per module is enough. *)
Record finfo : Type := mkFinfo { finfo_max : R; finfo_eps : R }.

Definition float32 : finfo :=
  mkFinfo ((2 - / 2 ^ 23) * 2 ^ 127)%R (/ 2 ^ 23)%R.

Definition max_neg_value (dt : finfo) : R := (- finfo_max dt)%R.

Definition apply_transform (x rot trans : tensor) : tensor := x.

Definition apply_inverse_transform (x rot trans : tensor) : tensor := x.

(** ** The module *)

Record InvariantPointAttention : Type := mkIPA {
  eps : R;
  heads : nat;
  scalar_attn_logits_scale : R;
  to_scalar_q : Linear;
  to_scalar_k : Linear;
  to_scalar_v : Linear;
  point_weights : tensor;
  point_attn_logits_scale : R;
  to_point_q : Linear;
  to_point_k : Linear;
  to_point_v : Linear;
  pairwise_attn_logits_scale : R;
  to_pairwise_attn_bias : Linear;      (* followed by Rearrange('b ... h -> (b h) ...') *)
  to_out : Linear;
  dtype : finfo
}.

(** The learned values: [__init__] draws them, training changes them; the
    statements below hold for every choice. *)
Record Parameters : Type := mkParameters {
  W_scalar_q : nat -> nat -> R;
  W_scalar_k : nat -> nat -> R;
  W_scalar_v : nat -> nat -> R;
  point_weights_value : nat -> R;
  W_point_q : nat -> nat -> R;
  W_point_k : nat -> nat -> R;
  W_point_v : nat -> nat -> R;
  W_pairwise : nat -> nat -> R;
  b_pairwise : nat -> R;
  W_out : nat -> nat -> R;
  b_out : nat -> R
}.

(** [torch.log(torch.exp(torch.full((heads,), 1.)) - 1.)] *)
Definition point_weight_init_value (h : nat) : R := ln (exp 1 - 1).

(** The keyword arguments of [__init__]. *)
Module Init.
Record args : Type := mk {
  dim : nat;
  heads : nat;
  scalar_key_dim : nat;
  scalar_value_dim : nat;
  point_key_dim : nat;
  point_value_dim : nat;
  pairwise_repr_dim : option nat;
  eps : R
}.

(** The defaults of the signature, for a given [dim]. *)
Definition defaults (dim : nat) : args :=
  mk dim 8 16 16 4 4 None (/ 10 ^ 8)%R.
End Init.

Definition init (a : Init.args) (dt : finfo) (theta : Parameters) : InvariantPointAttention :=
  let dim := Init.dim a in
  let heads := Init.heads a in
  let scalar_key_dim := Init.scalar_key_dim a in
  let scalar_value_dim := Init.scalar_value_dim a in
  let point_key_dim := Init.point_key_dim a in
  let point_value_dim := Init.point_value_dim a in
  let pairwise_repr_dim := default (Init.pairwise_repr_dim a) dim in
  {| eps := Init.eps a;
     heads := heads;
     scalar_attn_logits_scale := Rpower (INR (3 * scalar_key_dim)) (- 0.5);
     to_scalar_q := mkLinear dim (scalar_key_dim * heads) (W_scalar_q theta) None;
     to_scalar_k := mkLinear dim (scalar_key_dim * heads) (W_scalar_k theta) None;
     to_scalar_v := mkLinear dim (scalar_value_dim * heads) (W_scalar_v theta) None;
     point_weights := mkT [heads] (fun idx => point_weights_value theta (hd 0 idx));
     point_attn_logits_scale := Rpower (INR (3 * point_key_dim) * (9 / 2)) (- 0.5);
     to_point_q := mkLinear dim (point_key_dim * heads * 3) (W_point_q theta) None;
     to_point_k := mkLinear dim (point_key_dim * heads * 3) (W_point_k theta) None;
     to_point_v := mkLinear dim (point_value_dim * heads * 3) (W_point_v theta) None;
     pairwise_attn_logits_scale := Rpower 3 (- 0.5);
     to_pairwise_attn_bias :=
       mkLinear pairwise_repr_dim heads (W_pairwise theta) (Some (b_pairwise theta));
     to_out :=
       mkLinear (scalar_value_dim * heads + pairwise_repr_dim * heads + point_value_dim * heads * 3)
                dim (W_out theta) (Some (b_out theta));
     dtype := dt |}.

(** ** forward *)

(** The per-head queries, keys and values (source lines 91-98). *)
Record qkv : Type := mkQKV {
  q_scalar : tensor; k_scalar : tensor; v_scalar : tensor;
  q_point : tensor; k_point : tensor; v_point : tensor
}.

Definition shape0 (site : string) (t : tensor) : result nat :=
  match shape t with
  | b :: _ => Ok b
  | [] => Err site [shape t]
  end.

Definition project (self : InvariantPointAttention) (x : tensor) : result qkv :=
  let h := heads self in
  q_scalar <- linear "to_scalar_q" (to_scalar_q self) x ;;
  k_scalar <- linear "to_scalar_k" (to_scalar_k self) x ;;
  v_scalar <- linear "to_scalar_v" (to_scalar_v self) x ;;
  q_point <- linear "to_point_q" (to_point_q self) x ;;
  k_point <- linear "to_point_k" (to_point_k self) x ;;
  v_point <- linear "to_point_v" (to_point_v self) x ;;
  q_scalar <- split_heads "rearrange q_scalar" h q_scalar ;;
  k_scalar <- split_heads "rearrange k_scalar" h k_scalar ;;
  v_scalar <- split_heads "rearrange v_scalar" h v_scalar ;;
  q_point <- split_point_heads "rearrange q_point" h 3 q_point ;;
  k_point <- split_point_heads "rearrange k_point" h 3 k_point ;;
  v_point <- split_point_heads "rearrange v_point" h 3 v_point ;;
  Ok (mkQKV q_scalar k_scalar v_scalar q_point k_point v_point).

(** Source line 102. *)
Definition attn_logits_scalar (self : InvariantPointAttention) (p : qkv) : result tensor :=
  t <- einsum_bid_bjd "attn_logits_scalar" (q_scalar p) (k_scalar p) ;;
  Ok (tmap (fun v => (v * scalar_attn_logits_scale self)%R) t).

(** Source line 103. *)
Definition attn_logits_pairwise (self : InvariantPointAttention) (pairwise_repr : tensor)
    : result tensor :=
  t <- linear "to_pairwise_attn_bias" (to_pairwise_attn_bias self) pairwise_repr ;;
  t <- fold_heads "to_pairwise_attn_bias" t ;;
  Ok (tmap (fun v => (v * pairwise_attn_logits_scale self)%R) t).

(** Source lines 107-113. *)
Definition attn_logits_points (self : InvariantPointAttention) (b : nat) (p : qkv)
    : result tensor :=
  qi <- unsqueeze_key_axis "point_qk_diff" (q_point p) ;;
  kj <- unsqueeze_query_axis "point_qk_diff" (k_point p) ;;
  point_qk_diff <- broadcast2 "point_qk_diff" Rminus qi kj ;;
  point_dist <- sum_penultimate "point_dist" (tmap (fun v => (v ^ 2)%R) point_qk_diff) ;;
  let point_weights := tmap softplus (point_weights self) in
  point_weights <- repeat_heads "point_weights" b point_weights ;;
  weighted <- broadcast2 "attn_logits_points" Rmult point_dist point_weights ;;
  s <- sum_last "attn_logits_points" weighted ;;
  Ok (tmap (fun v => (- 0.5 * v)%R) s).

(** Source lines 117-124. *)
Definition combine_and_mask (self : InvariantPointAttention)
    (logits_scalar logits_pairwise logits_points : tensor) (mask : option btensor)
    : result tensor :=
  s <- broadcast2 "attn_logits" Rplus logits_scalar logits_pairwise ;;
  attn_logits <- broadcast2 "attn_logits" Rplus s logits_points ;;
  match mask with
  | Some mask =>
      mi <- mask_rows "mask" mask ;;
      mj <- mask_cols "mask" mask ;;
      mask <- bbroadcast2 "mask" andb mi mj ;;
      let mask_value := max_neg_value (dtype self) in
      masked_fill "masked_fill" attn_logits (bnot mask) mask_value
  | None => Ok attn_logits
  end.

(** Source lines 87-128: everything up to the attention weights. *)
Definition attention (self : InvariantPointAttention)
    (single_repr pairwise_repr : tensor) (mask : option btensor) : result (qkv * tensor) :=
  let x := single_repr in
  b <- shape0 "single_repr.shape[0]" x ;;
  p <- project self x ;;
  logits_scalar <- attn_logits_scalar self p ;;
  logits_pairwise <- attn_logits_pairwise self pairwise_repr ;;
  logits_points <- attn_logits_points self b p ;;
  attn_logits <- combine_and_mask self logits_scalar logits_pairwise logits_points mask ;;
  attn <- softmax "softmax" attn_logits ;;
  Ok (p, attn).

(** Source lines 132-148. *)
Definition aggregate (self : InvariantPointAttention) (p : qkv) (attn pairwise_repr : tensor)
    : result tensor :=
  let h := heads self in
  results_scalar <- einsum_bij_bjd "results_scalar" attn (v_scalar p) ;;
  attn_with_heads <- unfold_heads "attn_with_heads" h attn ;;
  results_pairwise <- einsum_bhij_bijd "results_pairwise" attn_with_heads pairwise_repr ;;
  results_points <- einsum_bij_bjdc "results_points" attn (v_point p) ;;
  results_scalar <- merge_heads "rearrange results_scalar" h results_scalar ;;
  results_pairwise <- merge_head_axis "rearrange results_pairwise" h results_pairwise ;;
  results_points <- merge_point_heads "rearrange results_points" h results_points ;;
  r <- cat_last "cat" results_scalar results_pairwise ;;
  results <- cat_last "cat" r results_points ;;
  linear "to_out" (to_out self) results.

Definition forward (self : InvariantPointAttention)
    (single_repr pairwise_repr rotations translations : tensor) (mask : option btensor)
    : result tensor :=
  pa <- attention self single_repr pairwise_repr mask ;;
  aggregate self (fst pa) (snd pa) pairwise_repr.


(** * Entry-wise readings of [forward]

    What each stage of [forward] puts at one in-range entry, written on
    the indices; the lemmas below prove that the tensor operations above
    compute exactly these. *)

Section Readings.

Variables (a : Init.args) (dt : finfo) (theta : Parameters).

Let self := init a dt theta.

(** Per-head projections of entity [i] of batch [b] (lines 91-98). *)
Definition scalar_query (x : tensor) (b h i d : nat) : R :=
  rsum (Init.dim a)
       (fun c => (val x [b; i; c] * W_scalar_q theta (h * Init.scalar_key_dim a + d) c)%R).

Definition scalar_key (x : tensor) (b h j d : nat) : R :=
  rsum (Init.dim a)
       (fun c => (val x [b; j; c] * W_scalar_k theta (h * Init.scalar_key_dim a + d) c)%R).

Definition point_query (x : tensor) (b h i d c : nat) : R :=
  rsum (Init.dim a)
       (fun e => (val x [b; i; e] * W_point_q theta ((h * Init.point_key_dim a + d) * 3 + c) e)%R).

Definition point_key (x : tensor) (b h j d c : nat) : R :=
  rsum (Init.dim a)
       (fun e => (val x [b; j; e] * W_point_k theta ((h * Init.point_key_dim a + d) * 3 + c) e)%R).

(** The per-head precision: the stored parameter through softplus. *)
Definition precision (h : nat) : R := softplus (point_weights_value theta h).

(** Squared distance between the point queries of entity [i] and the point
    keys of entity [j], summed over the point components and the 3 axes. *)
Definition squared_distance (x : tensor) (b h i j : nat) : R :=
  rsum 3 (fun c =>
    rsum (Init.point_key_dim a)
         (fun d => ((point_query x b h i d c - point_key x b h j d c) ^ 2)%R)).

(** What [project] returns on a [single_repr] of shape (B, N, dim). *)
Record Projected (x : tensor) (B N : nat) (p : qkv) : Prop := {
  q_scalar_shape : shape (q_scalar p) = [B * Init.heads a; N; Init.scalar_key_dim a];
  k_scalar_shape : shape (k_scalar p) = [B * Init.heads a; N; Init.scalar_key_dim a];
  v_scalar_shape : shape (v_scalar p) = [B * Init.heads a; N; Init.scalar_value_dim a];
  q_point_shape : shape (q_point p) = [B * Init.heads a; N; Init.point_key_dim a; 3];
  k_point_shape : shape (k_point p) = [B * Init.heads a; N; Init.point_key_dim a; 3];
  v_point_shape : shape (v_point p) = [B * Init.heads a; N; Init.point_value_dim a; 3];
  q_scalar_val : forall bh i d,
    val (q_scalar p) [bh; i; d]
    = linear_val (to_scalar_q self) x
        [bh / Init.heads a; i; bh mod Init.heads a * Init.scalar_key_dim a + d];
  k_scalar_val : forall bh i d,
    val (k_scalar p) [bh; i; d]
    = linear_val (to_scalar_k self) x
        [bh / Init.heads a; i; bh mod Init.heads a * Init.scalar_key_dim a + d];
  v_scalar_val : forall bh i d,
    val (v_scalar p) [bh; i; d]
    = linear_val (to_scalar_v self) x
        [bh / Init.heads a; i; bh mod Init.heads a * Init.scalar_value_dim a + d];
  q_point_val : forall bh i d c,
    val (q_point p) [bh; i; d; c]
    = linear_val (to_point_q self) x
        [bh / Init.heads a; i; (bh mod Init.heads a * Init.point_key_dim a + d) * 3 + c];
  k_point_val : forall bh i d c,
    val (k_point p) [bh; i; d; c]
    = linear_val (to_point_k self) x
        [bh / Init.heads a; i; (bh mod Init.heads a * Init.point_key_dim a + d) * 3 + c];
  v_point_val : forall bh i d c,
    val (v_point p) [bh; i; d; c]
    = linear_val (to_point_v self) x
        [bh / Init.heads a; i; (bh mod Init.heads a * Init.point_value_dim a + d) * 3 + c]
}.

(** Lines 102, 103, 107-113 at entry (bh, i, j). *)
Definition logit_scalar (p : qkv) (bh i j : nat) : R :=
  (rsum (Init.scalar_key_dim a)
        (fun d => val (q_scalar p) [bh; i; d] * val (k_scalar p) [bh; j; d])
   * scalar_attn_logits_scale self)%R.

Definition logit_pairwise (z : tensor) (bh i j : nat) : R :=
  (linear_val (to_pairwise_attn_bias self) z
     [(bh / Init.heads a)%nat; i; j; (bh mod Init.heads a)%nat]
   * pairwise_attn_logits_scale self)%R.

Definition logit_points (p : qkv) (bh i j : nat) : R :=
  (- 0.5 * rsum 3 (fun c =>
             rsum (Init.point_key_dim a)
                  (fun d => (val (q_point p) [bh; i; d; c]
                             - val (k_point p) [bh; j; d; c]) ^ 2)
             * softplus (point_weights_value theta (bh mod Init.heads a)%nat)))%R.

Definition logit_sum (p : qkv) (z : tensor) (bh i j : nat) : R :=
  (logit_scalar p bh i j + logit_pairwise z bh i j + logit_points p bh i j)%R.

(** Lines 121-124: the pair (i, j) of the batch element of row [bh] is
    valid when both entities are. *)
Definition pair_valid (mask : option btensor) (bh i j : nat) : bool :=
  match mask with
  | Some m => bval m [bh / Init.heads a; i] && bval m [bh / Init.heads a; j]
  | None => true
  end.

Definition logit (p : qkv) (z : tensor) (mask : option btensor) (bh i j : nat) : R :=
  if pair_valid mask bh i j then logit_sum p z bh i j else max_neg_value dt.

(** Line 128. *)
Definition attn_weight (p : qkv) (z : tensor) (mask : option btensor) (N bh i j : nat) : R :=
  (exp (logit p z mask bh i j) / rsum N (fun k => exp (logit p z mask bh i k)))%R.

(** Lines 132-147: entry [e] of the concatenated results of entity [n] of
    batch [b], from attention weights [w]. *)
Definition results_entry (p : qkv) (z : tensor) (w : nat -> nat -> nat -> R)
    (N b n e : nat) : R :=
  let H := Init.heads a in
  let svd := Init.scalar_value_dim a in
  let pvd := Init.point_value_dim a in
  let Dp := default (Init.pairwise_repr_dim a) (Init.dim a) in
  if e <? H * svd
  then let bh := b * H + e / svd in
       rsum N (fun j => w bh n j * val (v_scalar p) [bh; j; (e mod svd)%nat])%R
  else if e <? H * svd + H * Dp
  then let e := e - H * svd in
       rsum N (fun j => w (b * H + e / Dp)%nat n j * val z [b; n; j; (e mod Dp)%nat])%R
  else let e := e - (H * svd + H * Dp) in
       let bh := b * H + e / (pvd * 3) in
       rsum N (fun j => w bh n j
                        * val (v_point p) [bh; j; ((e / 3) mod pvd)%nat; (e mod 3)%nat])%R.

(** Line 148. *)
Definition output_entry (p : qkv) (z : tensor) (w : nat -> nat -> nat -> R)
    (N b n o : nat) : R :=
  (rsum (in_features (to_out self))
        (fun e => results_entry p z w N b n e * W_out theta o e)
   + b_out theta o)%R.

(** A mask the masking step accepts: one flag per entity, and a batch axis
    that broadcasts against the folded (batch heads) axis of the logits. *)
Definition mask_ok (mask : option btensor) (B N : nat) : Prop :=
  match mask with
  | Some m => bshape m = [B; N] /\ (B = 1 \/ Init.heads a = 1)
  | None => True
  end.

End Readings.

(** ** Permuting the entity axis *)

(** A permutation of the positions [0 .. n-1]. *)
Definition permutes (n : nat) (sigma : nat -> nat) : Prop :=
  (forall i, i < n -> sigma i < n) /\
  (forall i j, i < n -> j < n -> sigma i = sigma j -> i = j).

(** Axis 1 of [single_repr], [rotations], [translations]. *)
Definition permute_entities (sigma : nat -> nat) (t : tensor) : tensor :=
  mkT (shape t)
      (fun idx => match idx with
                  | b :: n :: rest => val t (b :: sigma n :: rest)
                  | _ => val t idx
                  end).

(** Axes 1 and 2 of [pairwise_repr]. *)
Definition permute_pairs (sigma : nat -> nat) (t : tensor) : tensor :=
  mkT (shape t)
      (fun idx => match idx with
                  | b :: i :: j :: rest => val t (b :: sigma i :: sigma j :: rest)
                  | _ => val t idx
                  end).

Definition permute_mask (sigma : nat -> nat) (m : btensor) : btensor :=
  mkB (bshape m)
      (fun idx => match idx with
                  | b :: n :: rest => bval m (b :: sigma n :: rest)
                  | _ => bval m idx
                  end).

(** The permutation of two entities that exchanges them. *)
Definition swap01 (i : nat) : nat := 1 - i.

(** Largest of [f 0 .. f (n-1)] (of nonnegative weights). *)
Definition row_max (n : nat) (f : nat -> R) : R :=
  fold_right Rmax 0%R (map f (seq 0 n)).

(** ** The frame transform of the specification

    The transform the specification describes for the point pathway,
    [global = rotation * local + translation] with the frame of the entity
    that owns the point.  It is not what the source does: there
    [apply_transform] returns its argument. *)
Definition spec_to_global (h : nat) (rot trans pts : tensor) : tensor :=
  mkT (shape pts)
      (fun idx => match idx with
                  | [bh; n; d; c] =>
                      (rsum 3 (fun c' => val rot [(bh / h)%nat; n; c; c'] * val pts [bh; n; d; c'])
                       + val trans [(bh / h)%nat; n; c])%R
                  | _ => 0%R
                  end).

(** Squared distance between point [d] of query entity [i] and of key
    entity [j] once both are in the global frame. *)
Definition spec_global_distance (h : nat) (rot trans : tensor) (p : qkv) (bh i j d : nat) : R :=
  rsum 3 (fun c => ((val (spec_to_global h rot trans (q_point p)) [bh; i; d; c]
                     - val (spec_to_global h rot trans (k_point p)) [bh; j; d; c]) ^ 2)%R).

(** ** Concrete modules and inputs used in the examples *)

Definition zeros (s : list nat) : tensor := mkT s (fun _ => 0%R).

Definition ones (s : list nat) : tensor := mkT s (fun _ => 1%R).

(** A [single_repr] of ones and a [pairwise_repr] of zeros, feature width 1. *)
Definition ones_single (B N : nat) : tensor := ones [B; N; 1].

Definition zeros_pairwise (B N : nat) : tensor := zeros [B; N; N; 1].

Definition zeros_translations (B N : nat) : tensor := zeros [B; N; 3].

Definition no_weight : nat -> nat -> R := fun _ _ => 0%R.

(** Weight of a point projection that copies feature 0 to the x axis of
    point 0. *)
Definition x_axis_weight : nat -> nat -> R :=
  fun o _ => if o =? 0 then 1%R else 0%R.

(** All weights zero, precisions at their initial value. *)
Definition theta_zero : Parameters :=
  mkParameters no_weight no_weight no_weight point_weight_init_value
               no_weight no_weight no_weight no_weight (fun _ => 0%R)
               no_weight (fun _ => 0%R).

(** As [theta_zero], but the point query is the feature on the x axis. *)
Definition theta_q : Parameters :=
  mkParameters no_weight no_weight no_weight point_weight_init_value
               x_axis_weight no_weight no_weight no_weight (fun _ => 0%R)
               no_weight (fun _ => 0%R).

(** As [theta_q], and the point key too. *)
Definition theta_qk : Parameters :=
  mkParameters no_weight no_weight no_weight point_weight_init_value
               x_axis_weight x_axis_weight no_weight no_weight (fun _ => 0%R)
               no_weight (fun _ => 0%R).

(** One head, every width 1. *)
Definition args_one : Init.args := Init.mk 1 1 1 1 1 1 None (/ 10 ^ 8)%R.

(** Two heads, every width 1. *)
Definition args_two_heads : Init.args := Init.mk 1 2 1 1 1 1 None (/ 10 ^ 8)%R.

(** Entity 0 valid, every other entity padding. *)
Definition mask_first (N : nat) : btensor :=
  mkB [1; N] (fun idx => match idx with
                         | [_; 0] => true
                         | _ => false
                         end).

Definition mask_all (B N : nat) : btensor := mkB [B; N] (fun _ => true).

(** Feature 2^65 for entity 0, 0 for the others. *)
Definition huge_first (N : nat) : tensor :=
  mkT [1; N; 1] (fun idx => match idx with
                            | [_; 0; _] => (2 ^ 65)%R
                            | _ => 0%R
                            end).

(** Identity rotation for every entity. *)
Definition identity_rotations (B N : nat) : tensor :=
  mkT [B; N; 3; 3] (fun idx => match idx with
                               | [_; _; r; c] => if r =? c then 1%R else 0%R
                               | _ => 0%R
                               end).

(** Entity 1 shifted by one unit along x, the others at the origin. *)
Definition shift_second (B N : nat) : tensor :=
  mkT [B; N; 3] (fun idx => match idx with
                            | [_; 1; 0] => 1%R
                            | _ => 0%R
                            end).
(** ** Variations of the parameters and inputs *)

(** [theta] with the bias of [to_pairwise_attn_bias] replaced. *)
Definition set_pairwise_bias (theta : Parameters) (b : nat -> R) : Parameters :=
  mkParameters (W_scalar_q theta) (W_scalar_k theta) (W_scalar_v theta)
               (point_weights_value theta)
               (W_point_q theta) (W_point_k theta) (W_point_v theta)
               (W_pairwise theta) b (W_out theta) (b_out theta).

(** The two masks say the same about the entities of batch element [b]
    (of the first) and [b2] (of the second). *)
Definition masks_agree (N b b2 : nat) (mask mask2 : option btensor) : Prop :=
  match mask, mask2 with
  | None, None => True
  | Some m, Some m2 => forall n, n < N -> bval m [b; n] = bval m2 [b2; n]
  | _, _ => False
  end.

(** The two parameter sets give head [h] the same query and key
    projections (scalar and point), the same pairwise projection and the
    same stored precision. *)
Definition head_agrees (a : Init.args) (h : nat) (theta theta2 : Parameters) : Prop :=
  (forall d c, d < Init.scalar_key_dim a ->
     W_scalar_q theta (h * Init.scalar_key_dim a + d) c
     = W_scalar_q theta2 (h * Init.scalar_key_dim a + d) c) /\
  (forall d c, d < Init.scalar_key_dim a ->
     W_scalar_k theta (h * Init.scalar_key_dim a + d) c
     = W_scalar_k theta2 (h * Init.scalar_key_dim a + d) c) /\
  (forall d e c, d < Init.point_key_dim a -> e < 3 ->
     W_point_q theta ((h * Init.point_key_dim a + d) * 3 + e) c
     = W_point_q theta2 ((h * Init.point_key_dim a + d) * 3 + e) c) /\
  (forall d e c, d < Init.point_key_dim a -> e < 3 ->
     W_point_k theta ((h * Init.point_key_dim a + d) * 3 + e) c
     = W_point_k theta2 ((h * Init.point_key_dim a + d) * 3 + e) c) /\
  (forall c, W_pairwise theta h c = W_pairwise theta2 h c) /\
  b_pairwise theta h = b_pairwise theta2 h /\
  point_weights_value theta h = point_weights_value theta2 h.

(** * Properties *)

(** ** Sums *)

Lemma rsum_ext (n : nat) (f g : nat -> R) :
  (forall i, i < n -> f i = g i) -> rsum n f = rsum n g.
Proof.
  intros E. unfold rsum. f_equal. apply map_ext_in.
  intros i Hi. apply in_seq in Hi. apply E. lia.
Qed.

Lemma rsum_S (n : nat) (f : nat -> R) :
  rsum (S n) f = (rsum n f + f n)%R.
Proof.
  unfold rsum. rewrite seq_S, map_app, fold_right_app. simpl.
  generalize (map f (seq 0 n)). intros l.
  induction l as [|a l IH]; simpl; [lra | rewrite IH; lra].
Qed.

Lemma rsum_0 (f : nat -> R) : rsum 0 f = 0%R.
Proof. reflexivity. Qed.

Lemma rsum_pos (n : nat) (f : nat -> R) :
  0 < n -> (forall i, i < n -> (0 < f i)%R) -> (0 < rsum n f)%R.
Proof.
  induction n as [|n IH]; intros Hn Hf; [lia|].
  rewrite rsum_S. destruct n as [|n].
  - rewrite rsum_0. specialize (Hf 0 ltac:(lia)). lra.
  - assert (0 < rsum (S n) f)%R by (apply IH; [lia | intros; apply Hf; lia]).
    specialize (Hf (S n) ltac:(lia)). lra.
Qed.

Lemma rsum_scal_r (n : nat) (f : nat -> R) (c : R) :
  rsum n (fun i => (f i * c)%R) = (rsum n f * c)%R.
Proof.
  induction n as [|n IH]; [rewrite !rsum_0; lra|].
  rewrite !rsum_S, IH. lra.
Qed.

Lemma rsum_div (n : nat) (f : nat -> R) (c : R) :
  rsum n (fun i => (f i / c)%R) = (rsum n f / c)%R.
Proof. unfold Rdiv. apply rsum_scal_r. Qed.


Lemma fold_right_Rplus_perm (l m : list R) :
  Permutation l m -> fold_right Rplus 0%R l = fold_right Rplus 0%R m.
Proof.
  induction 1 as [|a l m _ IH|a b l|l m k _ IH1 _ IH2]; simpl.
  - reflexivity.
  - rewrite IH. reflexivity.
  - lra.
  - rewrite IH1. exact IH2.
Qed.

Lemma permutes_seq (n : nat) (sigma : nat -> nat) :
  permutes n sigma -> Permutation (map sigma (seq 0 n)) (seq 0 n).
Proof.
  intros [Hr Hi]. apply NoDup_Permutation_bis.
  - apply NoDup_map_NoDup_ForallPairs; [| apply seq_NoDup].
    intros i j Hin Hjn E. apply in_seq in Hin, Hjn. apply Hi; [lia | lia | exact E].
  - rewrite length_map. apply Nat.le_refl.
  - intros k Hk. apply in_map_iff in Hk. destruct Hk as [i [<- Hin]].
    apply in_seq in Hin. apply in_seq. specialize (Hr i ltac:(lia)). lia.
Qed.

Lemma rsum_reindex (n : nat) (sigma : nat -> nat) (f : nat -> R) :
  permutes n sigma -> rsum n (fun i => f (sigma i)) = rsum n f.
Proof.
  intros Hp. unfold rsum.
  rewrite <- (map_map sigma f).
  apply fold_right_Rplus_perm, Permutation_map, permutes_seq, Hp.
Qed.

(** ** Arithmetic of shapes and indices *)

Lemma bdim_refl (a : nat) : bdim a a = Some a.
Proof. unfold bdim. rewrite Nat.eqb_refl. reflexivity. Qed.

Lemma bc_lt (n i : nat) : i < n -> bc n i = i.
Proof.
  unfold bc. intros Hi. destruct (Nat.eqb_spec n 1) as [->|]; [lia | reflexivity].
Qed.

Lemma div_head (b h k : nat) : k < h -> (b * h + k) / h = b.
Proof.
  intros Hk. rewrite Nat.add_comm, Nat.div_add by lia.
  rewrite Nat.div_small by lia. reflexivity.
Qed.

Lemma mod_head (b h k : nat) : k < h -> (b * h + k) mod h = k.
Proof.
  intros Hk. rewrite Nat.add_comm, Nat.Div0.mod_add.
  apply Nat.mod_small. exact Hk.
Qed.

Lemma head_index_lt (b h B H : nat) : b < B -> h < H -> b * H + h < B * H.
Proof. intros. nia. Qed.

Lemma bdim_1_l (n : nat) : bdim 1 n = Some n.
Proof. unfold bdim. destruct (Nat.eqb_spec 1 n) as [<-|]; reflexivity. Qed.

Lemma bdim_1_r (n : nat) : bdim n 1 = Some n.
Proof.
  unfold bdim. destruct (Nat.eqb_spec n 1) as [->|]; [reflexivity|].
  rewrite Nat.eqb_refl. reflexivity.
Qed.

Lemma bdim_heads_batch (B H : nat) : 2 <= B -> 2 <= H -> bdim (B * H) B = None.
Proof.
  intros HB HH. unfold bdim.
  destruct (Nat.eqb_spec (B * H) B) as [E|_]; [nia|].
  destruct (Nat.eqb_spec (B * H) 1) as [E|_]; [nia|].
  destruct (Nat.eqb_spec B 1) as [E|_]; [lia|]. reflexivity.
Qed.

Lemma bc_1 (i : nat) : bc 1 i = 0.
Proof. reflexivity. Qed.

(** Reading an entry: reduce the index bookkeeping, then drop the
    broadcast of the in-range positions. *)
Ltac idx :=
  cbn [bidx map2 skipn List.length Nat.sub app removelast last hd val];
  rewrite ?bc_1;
  repeat match goal with
         | Hlt : ?i < ?n |- context [bc ?n ?i] => rewrite (bc_lt n i Hlt)
         end.

(** Running the shape checks of a chain of operations. *)
Ltac step :=
  try unfold broadcast_shapes;
  cbn [bind shape bshape rev app broadcast_rev option_map tmap bnot];
  rewrite ?bdim_refl, ?bdim_1_l, ?bdim_1_r, ?Nat.eqb_refl.

Ltac run := repeat (progress step).

(** ** The stages of [forward] *)

Section Stages.

Variables (a : Init.args) (dt : finfo) (theta : Parameters).

Hypothesis heads_pos : 0 < Init.heads a.

Let self := init a dt theta.

Local Abbreviation nH := (Init.heads a).
Local Abbreviation dim := (Init.dim a).
Local Abbreviation skd := (Init.scalar_key_dim a).
Local Abbreviation svd := (Init.scalar_value_dim a).
Local Abbreviation pkd := (Init.point_key_dim a).
Local Abbreviation pvd := (Init.point_value_dim a).
Local Abbreviation Dp := (default (Init.pairwise_repr_dim a) (Init.dim a)).

Lemma check_heads : (0 <? nH) = true.
Proof. apply Nat.ltb_lt. exact heads_pos. Qed.

Lemma check_heads3 : (0 <? nH * 3) = true.
Proof. apply Nat.ltb_lt. lia. Qed.

Lemma project_ok (x : tensor) (B N : nat) :
  shape x = [B; N; dim] ->
  exists p, project self x = Ok p /\ Projected a dt theta x B N p.
Proof.
  intros Hx. eexists. split.
  - unfold project, linear, split_heads, split_point_heads, self, init.
    cbn [to_scalar_q to_scalar_k to_scalar_v to_point_q to_point_k to_point_v
         heads in_features out_features].
    rewrite Hx. cbn [rev app bind shape].
    rewrite !Nat.eqb_refl. cbn [rev app bind shape].
    rewrite check_heads, check_heads3.
    rewrite <- !(Nat.mul_assoc _ nH 3).
    rewrite !Nat.Div0.mod_mul, !Nat.div_mul by lia.
    cbn [Nat.eqb andb bind]. reflexivity.
  - constructor; cbn [q_scalar k_scalar v_scalar q_point k_point v_point shape val];
      intros; reflexivity.
Qed.

Lemma attn_logits_scalar_ok (p : qkv) (BH N D : nat) :
  shape (q_scalar p) = [BH; N; D] ->
  shape (k_scalar p) = [BH; N; D] ->
  exists t, attn_logits_scalar self p = Ok t /\ shape t = [BH; N; N] /\
    forall bh i j, bh < BH ->
      val t [bh; i; j]
      = (rsum D (fun d => val (q_scalar p) [bh; i; d] * val (k_scalar p) [bh; j; d])
         * scalar_attn_logits_scale self)%R.
Proof.
  intros Hq Hk. eexists. split; [|split].
  - unfold attn_logits_scalar, einsum_bid_bjd. rewrite Hq, Hk, !bdim_refl.
    cbn [bind]. reflexivity.
  - reflexivity.
  - intros bh i j Hbh. cbn [val tmap]. f_equal.
    apply rsum_ext. intros d Hd. idx. reflexivity.
Qed.

Lemma attn_logits_pairwise_ok (z : tensor) (B I J : nat) :
  shape z = [B; I; J; Dp] ->
  exists t, attn_logits_pairwise self z = Ok t /\ shape t = [B * nH; I; J] /\
    forall bh i j, val t [bh; i; j] = logit_pairwise a dt theta z bh i j.
Proof.
  intros Hz. eexists. split; [|split].
  - unfold attn_logits_pairwise, linear, fold_heads, self, init.
    cbn [to_pairwise_attn_bias in_features out_features].
    rewrite Hz. cbn [rev app bind shape]. rewrite Nat.eqb_refl.
    cbn [rev app bind shape]. reflexivity.
  - reflexivity.
  - intros bh i j. reflexivity.
Qed.

Lemma attn_logits_points_ok (p : qkv) (B N D : nat) :
  shape (q_point p) = [B * nH; N; D; 3] ->
  shape (k_point p) = [B * nH; N; D; 3] ->
  exists t, attn_logits_points self B p = Ok t /\ shape t = [B * nH; N; N] /\
    forall bh i j, bh < B * nH -> i < N -> j < N ->
      val t [bh; i; j]
      = (- 0.5 * rsum 3 (fun c =>
                 rsum D (fun d => (val (q_point p) [bh; i; d; c]
                                   - val (k_point p) [bh; j; d; c]) ^ 2)
                 * softplus (point_weights_value theta (bh mod nH)%nat)))%R.
Proof.
  intros Hq Hk. eexists. split; [|split].
  - unfold attn_logits_points, unsqueeze_key_axis, unsqueeze_query_axis, broadcast2,
      sum_penultimate, repeat_heads, sum_last, self, init.
    cbn [point_weights].
    rewrite Hq, Hk. run. reflexivity.
  - reflexivity.
  - intros bh i j Hbh Hi Hj. cbn [val tmap]. f_equal.
    apply rsum_ext. intros c Hc. idx. f_equal.
    apply rsum_ext. intros d Hd. idx. reflexivity.
Qed.

Lemma combine_and_mask_ok (ls lp lpt : tensor) (mask : option btensor) (B N : nat) :
  shape ls = [B * nH; N; N] -> shape lp = [B * nH; N; N] -> shape lpt = [B * nH; N; N] ->
  mask_ok a mask B N ->
  exists t, combine_and_mask self ls lp lpt mask = Ok t /\ shape t = [B * nH; N; N] /\
    forall bh i j, bh < B * nH -> i < N -> j < N ->
      val t [bh; i; j]
      = if pair_valid a mask bh i j
        then (val ls [bh; i; j] + val lp [bh; i; j] + val lpt [bh; i; j])%R
        else max_neg_value dt.
Proof.
  intros Hs Hp Ht Hm.
  destruct mask as [m|]; cbn [mask_ok] in Hm.
  - destruct Hm as [Hsh [->| HH]].
    + eexists. split; [|split].
      * unfold combine_and_mask, broadcast2, mask_rows, mask_cols, bbroadcast2, masked_fill.
        rewrite Hs, Hp, Ht, Hsh. run. reflexivity.
      * reflexivity.
      * intros bh i j Hbh Hi Hj. cbn [val bval bnot pair_valid].
        idx. rewrite Nat.mul_1_l in Hbh. rewrite (Nat.div_small bh nH Hbh).
        destruct (bval m [0; i] && bval m [0; j]); reflexivity.
    + eexists. split; [|split].
      * unfold combine_and_mask, broadcast2, mask_rows, mask_cols, bbroadcast2, masked_fill.
        rewrite Hs, Hp, Ht, Hsh. run.
        replace (B * nH) with B by (rewrite HH; lia). run. reflexivity.
      * cbn [shape]. rewrite HH. f_equal. lia.
      * intros bh i j Hbh Hi Hj. cbn [val bval bnot pair_valid].
        assert (Hb : bh < B) by (rewrite HH in Hbh; lia).
        idx. rewrite HH, Nat.div_1_r.
        destruct (bval m [bh; i] && bval m [bh; j]); reflexivity.
  - eexists. split; [|split].
    + unfold combine_and_mask, broadcast2.
      rewrite Hs, Hp, Ht. run. reflexivity.
    + reflexivity.
    + intros bh i j Hbh Hi Hj. cbn [val pair_valid]. idx. reflexivity.
Qed.

(** With two or more batch elements and two or more heads the pairwise
    mask (B, N, N) does not broadcast against the logits (B * heads, N, N). *)
Lemma combine_and_mask_err (ls lp lpt : tensor) (m : btensor) (B N : nat) :
  shape ls = [B * nH; N; N] -> shape lp = [B * nH; N; N] -> shape lpt = [B * nH; N; N] ->
  bshape m = [B; N] -> 2 <= B -> 2 <= nH ->
  combine_and_mask self ls lp lpt (Some m)
  = Err "masked_fill" [[B * nH; N; N]; [B; N; N]].
Proof.
  intros Hs Hp Ht Hsh HB HH.
  unfold combine_and_mask, broadcast2, mask_rows, mask_cols, bbroadcast2, masked_fill.
  rewrite Hs, Hp, Ht, Hsh. run.
  rewrite (bdim_heads_batch B nH HB HH). reflexivity.
Qed.

Lemma attention_ok (x z : tensor) (mask : option btensor) (B N : nat) :
  shape x = [B; N; dim] ->
  shape z = [B; N; N; Dp] ->
  mask_ok a mask B N ->
  exists p w, attention self x z mask = Ok (p, w) /\ Projected a dt theta x B N p /\
    shape w = [B * nH; N; N] /\
    forall bh i j, bh < B * nH -> i < N -> j < N ->
      val w [bh; i; j] = attn_weight a dt theta p z mask N bh i j.
Proof.
  intros Hx Hz Hm.
  destruct (project_ok x B N Hx) as [p [Ep Pp]].
  destruct (attn_logits_scalar_ok p _ _ _ (q_scalar_shape _ _ _ _ _ _ _ Pp)
              (k_scalar_shape _ _ _ _ _ _ _ Pp)) as [ls [Es [Ss Vs]]].
  destruct (attn_logits_pairwise_ok z B N N Hz) as [lp [El [Sl Vl]]].
  destruct (attn_logits_points_ok p B N pkd (q_point_shape _ _ _ _ _ _ _ Pp)
              (k_point_shape _ _ _ _ _ _ _ Pp)) as [lpt [Et [St Vt]]].
  destruct (combine_and_mask_ok ls lp lpt mask B N Ss Sl St Hm) as [l [Ec [Sc Vc]]].
  assert (Vl' : forall bh i j, bh < B * nH -> i < N -> j < N ->
                  val l [bh; i; j] = logit a dt theta p z mask bh i j).
  { intros bh i j Hbh Hi Hj. rewrite Vc by assumption. unfold logit, logit_sum.
    rewrite Vs, Vl, Vt by assumption. reflexivity. }
  exists p. eexists. split; [|split; [exact Pp | split]].
  - unfold attention, shape0. rewrite Hx. cbn [bind].
    rewrite Ep. cbn [bind]. rewrite Es. cbn [bind]. rewrite El. cbn [bind].
    rewrite Et. cbn [bind]. rewrite Ec. cbn [bind].
    unfold softmax. rewrite Sc. cbn [rev app bind]. reflexivity.
  - reflexivity.
  - intros bh i j Hbh Hi Hj. cbn [val]. unfold softmax_val, attn_weight.
    cbn [removelast app]. rewrite Vl' by assumption. f_equal.
    apply rsum_ext. intros k Hk. rewrite Vl' by assumption. reflexivity.
Qed.

Lemma attention_mask_err (x z : tensor) (m : btensor) (B N : nat) :
  shape x = [B; N; dim] ->
  shape z = [B; N; N; Dp] ->
  bshape m = [B; N] -> 2 <= B -> 2 <= nH ->
  attention self x z (Some m) = Err "masked_fill" [[B * nH; N; N]; [B; N; N]].
Proof.
  intros Hx Hz Hsh HB HH.
  destruct (project_ok x B N Hx) as [p [Ep Pp]].
  destruct (attn_logits_scalar_ok p _ _ _ (q_scalar_shape _ _ _ _ _ _ _ Pp)
              (k_scalar_shape _ _ _ _ _ _ _ Pp)) as [ls [Es [Ss Vs]]].
  destruct (attn_logits_pairwise_ok z B N N Hz) as [lp [El [Sl Vl]]].
  destruct (attn_logits_points_ok p B N pkd (q_point_shape _ _ _ _ _ _ _ Pp)
              (k_point_shape _ _ _ _ _ _ _ Pp)) as [lpt [Et [St Vt]]].
  unfold attention, shape0. rewrite Hx. cbn [bind].
  rewrite Ep. cbn [bind]. rewrite Es. cbn [bind]. rewrite El. cbn [bind].
  rewrite Et. cbn [bind].
  rewrite (combine_and_mask_err ls lp lpt m B N Ss Sl St Hsh HB HH). reflexivity.
Qed.

Lemma aggregate_ok (p : qkv) (attn z : tensor) (B N : nat) :
  shape (v_scalar p) = [B * nH; N; svd] ->
  shape (v_point p) = [B * nH; N; pvd; 3] ->
  shape attn = [B * nH; N; N] ->
  shape z = [B; N; N; Dp] ->
  exists out, aggregate self p attn z = Ok out /\ shape out = [B; N; dim] /\
    forall b n o, b < B -> n < N ->
      val out [b; n; o]
      = output_entry a dt theta p z (fun bh i j => val attn [bh; i; j]) N b n o.
Proof.
  intros Hv Hpt Ha Hz. eexists. split; [|split].
  - unfold aggregate, einsum_bij_bjd, unfold_heads, einsum_bhij_bijd, einsum_bij_bjdc,
      merge_heads, merge_head_axis, merge_point_heads, cat_last, linear, self, init.
    cbn [heads to_out in_features out_features].
    rewrite Hv, Hpt, Ha, Hz. run.
    rewrite check_heads, !Nat.Div0.mod_mul, !Nat.div_mul by lia.
    cbn [Nat.eqb andb]. run. cbn [shape_eqb]. run. cbn [andb]. run.
    cbn [shape_eqb]. run. cbn [andb]. run.
    replace (nH * svd + nH * Dp + nH * pvd * 3) with (svd * nH + Dp * nH + pvd * nH * 3) by lia.
    run. reflexivity.
  - reflexivity.
  - intros b n o Hb Hn. cbn [val]. unfold linear_val, output_entry.
    cbn [bias removelast last to_out self init in_features weight]. f_equal.
    apply rsum_ext. intros e He. f_equal.
    unfold results_entry. cbn [val removelast last app].
    destruct (Nat.ltb_spec e (nH * svd)) as [H1|H1];
      destruct (Nat.ltb_spec e (nH * svd + nH * Dp)) as [H2|H2]; try lia;
      apply rsum_ext; intros j Hj.
    + assert (e / svd < nH) by (apply Nat.Div0.div_lt_upper_bound; lia).
      assert (b * nH + e / svd < B * nH) by (apply head_index_lt; assumption).
      idx. reflexivity.
    + idx. reflexivity.
    + assert ((e - (nH * svd + nH * Dp)) / (pvd * 3) < nH)
        by (apply Nat.Div0.div_lt_upper_bound; lia).
      assert (b * nH + (e - (nH * svd + nH * Dp)) / (pvd * 3) < B * nH)
        by (apply head_index_lt; assumption).
      idx. reflexivity.
Qed.


Lemma results_entry_ext (p : qkv) (z : tensor) (w w' : nat -> nat -> nat -> R)
    (B N b n e : nat) :
  b < B -> n < N -> e < svd * nH + Dp * nH + pvd * nH * 3 ->
  (forall bh i j, bh < B * nH -> i < N -> j < N -> w bh i j = w' bh i j) ->
  results_entry a p z w N b n e = results_entry a p z w' N b n e.
Proof.
  intros Hb Hn He Hw. unfold results_entry.
  destruct (Nat.ltb_spec e (nH * svd)) as [H1|H1];
    [| destruct (Nat.ltb_spec e (nH * svd + nH * Dp)) as [H2|H2]];
    apply rsum_ext; intros j Hj; rewrite Hw; try reflexivity; try assumption;
    apply head_index_lt; try assumption;
    apply Nat.Div0.div_lt_upper_bound; lia.
Qed.

Lemma output_entry_ext (p : qkv) (z : tensor) (w w' : nat -> nat -> nat -> R)
    (B N b n o : nat) :
  b < B -> n < N ->
  (forall bh i j, bh < B * nH -> i < N -> j < N -> w bh i j = w' bh i j) ->
  output_entry a dt theta p z w N b n o = output_entry a dt theta p z w' N b n o.
Proof.
  intros Hb Hn Hw. unfold output_entry. f_equal.
  apply rsum_ext. intros e He. f_equal.
  apply (results_entry_ext p z w w' B N b n e Hb Hn); [exact He | exact Hw].
Qed.

(** On well-shaped inputs whose mask (if any) the masking step accepts,
    [forward] returns a tensor of shape (B, N, dim) with the entries read
    off above. *)
Lemma forward_ok (x z rot trans : tensor) (mask : option btensor) (B N : nat) :
  shape x = [B; N; dim] ->
  shape z = [B; N; N; Dp] ->
  mask_ok a mask B N ->
  exists p out, Projected a dt theta x B N p /\
    forward self x z rot trans mask = Ok out /\ shape out = [B; N; dim] /\
    forall b n o, b < B -> n < N ->
      val out [b; n; o]
      = output_entry a dt theta p z (attn_weight a dt theta p z mask N) N b n o.
Proof.
  intros Hx Hz Hm.
  destruct (attention_ok x z mask B N Hx Hz Hm) as [p [w [Ea [Pp [Sw Vw]]]]].
  destruct (aggregate_ok p w z B N (v_scalar_shape _ _ _ _ _ _ _ Pp)
              (v_point_shape _ _ _ _ _ _ _ Pp) Sw Hz) as [out [Eo [So Vo]]].
  exists p, out. split; [exact Pp | split; [| split; [exact So |]]].
  - unfold forward. rewrite Ea. cbn [bind fst snd]. exact Eo.
  - intros b n o Hb Hn. rewrite Vo by assumption.
    apply (output_entry_ext p z _ _ B N b n o Hb Hn). exact Vw.
Qed.

Lemma forward_mask_err (x z rot trans : tensor) (m : btensor) (B N : nat) :
  shape x = [B; N; dim] ->
  shape z = [B; N; N; Dp] ->
  bshape m = [B; N] -> 2 <= B -> 2 <= nH ->
  forward self x z rot trans (Some m) = Err "masked_fill" [[B * nH; N; N]; [B; N; N]].
Proof.
  intros Hx Hz Hsh HB HH. unfold forward.
  rewrite (attention_mask_err x z m B N Hx Hz Hsh HB HH). reflexivity.
Qed.

End Stages.

(** ** Scales *)

Lemma scale_inv_sqrt (x : R) : (0 < x)%R -> Rpower x (- 0.5) = (/ sqrt x)%R.
Proof.
  intros Hx. replace (- 0.5)%R with (- / 2)%R by lra.
  rewrite Rpower_Ropp, Rpower_sqrt by exact Hx. reflexivity.
Qed.

Lemma scale_lt_1 (x : R) : (1 < x)%R -> (Rpower x (- 0.5) < 1)%R.
Proof.
  intros Hx. unfold Rpower. rewrite <- exp_0. apply exp_increasing.
  assert (0 < ln x)%R by (rewrite <- ln_1; apply ln_increasing; lra).
  nra.
Qed.

(** ** The scalar logits *)

(** C8.  On every well-shaped input the scalar attention logit at (batch b,
    head h, query i, key j) is scale_s times the dot product of the scalar
    query of entity i and the scalar key of entity j for that head, with
    scale_s = (3 * scalar_key_dim)^(-1/2). *)
Theorem C8_scalar_logit (a : Init.args) (dt : finfo) (theta : Parameters)
    (x : tensor) (B N : nat) :
  0 < Init.heads a ->
  0 < Init.scalar_key_dim a ->
  shape x = [B; N; Init.dim a] ->
  exists p t,
    project (init a dt theta) x = Ok p /\
    attn_logits_scalar (init a dt theta) p = Ok t /\
    shape t = [B * Init.heads a; N; N] /\
    forall b h i j, b < B -> h < Init.heads a -> i < N -> j < N ->
      val t [b * Init.heads a + h; i; j]
      = (/ sqrt (3 * INR (Init.scalar_key_dim a))
         * rsum (Init.scalar_key_dim a)
                (fun d => scalar_query a theta x b h i d * scalar_key a theta x b h j d))%R.
Proof.
  intros HH Hk Hx.
  destruct (project_ok a dt theta HH x B N Hx) as [p [Ep Pp]].
  destruct (attn_logits_scalar_ok a dt theta p _ _ _
              (q_scalar_shape _ _ _ _ _ _ _ Pp) (k_scalar_shape _ _ _ _ _ _ _ Pp))
    as [t [Et [St Vt]]].
  exists p, t. repeat split; try assumption.
  intros b h i j Hb Hh Hi Hj.
  rewrite Vt by (apply head_index_lt; assumption).
  cbn [init scalar_attn_logits_scale].
  rewrite scale_inv_sqrt.
  2:{ apply lt_0_INR. lia. }
  rewrite mult_INR. cbn [INR]. replace (1 + 1 + 1)%R with 3%R by lra.
  rewrite Rmult_comm. f_equal.
  apply rsum_ext. intros d Hd.
  rewrite (q_scalar_val _ _ _ _ _ _ _ Pp), (k_scalar_val _ _ _ _ _ _ _ Pp).
  rewrite div_head, mod_head by assumption. reflexivity.
Qed.

(** ** Rotations and translations *)

(** C10.  Two calls on the same module whose inputs differ only in the
    rotations and translations return the same result: [forward] never
    reads them. *)
Theorem C10_frames_not_read (self : InvariantPointAttention)
    (single_repr pairwise_repr : tensor) (mask : option btensor)
    (rotations translations rotations' translations' : tensor) :
  forward self single_repr pairwise_repr rotations translations mask
  = forward self single_repr pairwise_repr rotations' translations' mask.
Proof. reflexivity. Qed.

(** ** Masking and the head axis *)

(** C3.  With a mask, at least two batch elements and at least two heads,
    [forward] stops at [masked_fill]: the pairwise mask (B, N, N) does not
    broadcast against the logits (B * heads, N, N).  For a non-empty batch
    the masked call completes exactly when B = 1 or heads = 1. *)
Theorem C3_mask_not_expanded_over_heads (a : Init.args) (dt : finfo) (theta : Parameters)
    (x z rot trans : tensor) (m : btensor) (B N : nat) :
  shape x = [B; N; Init.dim a] ->
  shape z = [B; N; N; default (Init.pairwise_repr_dim a) (Init.dim a)] ->
  bshape m = [B; N] ->
  (2 <= B -> 2 <= Init.heads a ->
   forward (init a dt theta) x z rot trans (Some m)
   = Err "masked_fill" [[B * Init.heads a; N; N]; [B; N; N]]) /\
  (0 < B -> 0 < Init.heads a ->
   ((exists out, forward (init a dt theta) x z rot trans (Some m) = Ok out)
    <-> B = 1 \/ Init.heads a = 1)).
Proof.
  intros Hx Hz Hm. split.
  - intros HB HH. apply forward_mask_err; try assumption. lia.
  - intros HB HH. split.
    + intros [out Eo].
      destruct (Nat.eq_dec B 1) as [|HB1]; [left; assumption|].
      destruct (Nat.eq_dec (Init.heads a) 1) as [|HH1]; [right; assumption|].
      rewrite (forward_mask_err a dt theta HH x z rot trans m B N Hx Hz Hm) in Eo
        by lia.
      discriminate Eo.
    + intros Hc.
      destruct (forward_ok a dt theta HH x z rot trans (Some m) B N Hx Hz (conj Hm Hc))
        as [p [out [_ [Eo _]]]].
      exists out. exact Eo.
Qed.

(** C9.  The output shape (B, N, dim) is not reached on a masked batch:
    with B = 2, N = 1, two heads and a mask marking every entity valid,
    [forward] raises at [masked_fill] (the mask is (2, 1, 1), the logits
    (4, 1, 1)); the same call without the mask returns shape (2, 1, 1). *)
Theorem C9_masked_batch_has_no_output :
  forward (init args_two_heads float32 theta_zero)
          (ones_single 2 1) (zeros_pairwise 2 1)
          (identity_rotations 2 1) (zeros_translations 2 1) (Some (mask_all 2 1))
  = Err "masked_fill" [[4; 1; 1]; [2; 1; 1]]
  /\
  exists out,
    forward (init args_two_heads float32 theta_zero)
            (ones_single 2 1) (zeros_pairwise 2 1)
            (identity_rotations 2 1) (zeros_translations 2 1) None = Ok out
    /\ shape out = [2; 1; 1].
Proof.
  split.
  - apply (forward_mask_err args_two_heads float32 theta_zero ltac:(cbn; lia)
             (ones_single 2 1) (zeros_pairwise 2 1) _ _ (mask_all 2 1) 2 1);
      try reflexivity; cbn; lia.
  - destruct (forward_ok args_two_heads float32 theta_zero ltac:(cbn; lia)
                (ones_single 2 1) (zeros_pairwise 2 1) (identity_rotations 2 1)
                (zeros_translations 2 1) None 2 1 eq_refl eq_refl I)
      as [p [out [_ [Eo [So _]]]]].
    exists out. split; assumption.
Qed.

Lemma C8_scalar_logit_witness :
  exists p t,
    project (init args_one float32 theta_zero) (ones_single 1 1) = Ok p /\
    attn_logits_scalar (init args_one float32 theta_zero) p = Ok t /\
    shape t = [1 * Init.heads args_one; 1; 1] /\
    forall b h i j, b < 1 -> h < Init.heads args_one -> i < 1 -> j < 1 ->
      val t [b * Init.heads args_one + h; i; j]
      = (/ sqrt (3 * INR (Init.scalar_key_dim args_one))
         * rsum (Init.scalar_key_dim args_one)
                (fun d => scalar_query args_one theta_zero (ones_single 1 1) b h i d
                          * scalar_key args_one theta_zero (ones_single 1 1) b h j d))%R.
Proof.
  apply (C8_scalar_logit args_one float32 theta_zero (ones_single 1 1) 1 1).
  - cbn. lia.
  - cbn. lia.
  - reflexivity.
Defined.

Lemma C3_mask_not_expanded_over_heads_witness :
  forward (init args_two_heads float32 theta_zero) (ones_single 2 1) (zeros_pairwise 2 1)
          (identity_rotations 2 1) (zeros_translations 2 1) (Some (mask_all 2 1))
  = Err "masked_fill" [[2 * Init.heads args_two_heads; 1; 1]; [2; 1; 1]].
Proof.
  apply (proj1 (C3_mask_not_expanded_over_heads args_two_heads float32 theta_zero
                  (ones_single 2 1) (zeros_pairwise 2 1) (identity_rotations 2 1)
                  (zeros_translations 2 1) (mask_all 2 1) 2 1 eq_refl eq_refl eq_refl)).
  - apply Nat.le_refl.
  - apply Nat.le_refl.
Defined.

(** ** Shape mismatches *)

Lemma bdim_none (x y : nat) : x <> y -> x <> 1 -> y <> 1 -> bdim x y = None.
Proof.
  intros Hxy Hx Hy. unfold bdim.
  destruct (Nat.eqb_spec x y); [contradiction|].
  destruct (Nat.eqb_spec x 1); [contradiction|].
  destruct (Nat.eqb_spec y 1); [contradiction|]. reflexivity.
Qed.

(** C4, as stated, fails twice over.  Rotations and translations with
    batch size 2 next to a [single_repr] with batch size 1 are accepted,
    and the call returns.  With one head, a [pairwise_repr] with batch size
    2 next to a [single_repr] with batch size 1 is accepted too: the batch
    axis of size 1 is broadcast and the call returns a tensor of shape
    (2, 2, 1). *)
Lemma C4_counterexample :
  (shape (ones_single 1 1) = [1; 1; 1] /\
   shape (identity_rotations 2 1) = [2; 1; 3; 3] /\
   shape (zeros_translations 2 1) = [2; 1; 3] /\
   exists out,
     forward (init args_one float32 theta_zero) (ones_single 1 1) (zeros_pairwise 1 1)
             (identity_rotations 2 1) (zeros_translations 2 1) None = Ok out)
  /\
  (shape (ones_single 1 2) = [1; 2; 1] /\
   shape (zeros_pairwise 2 2) = [2; 2; 2; 1] /\
   exists out,
     forward (init args_one float32 theta_zero) (ones_single 1 2) (zeros_pairwise 2 2)
             (identity_rotations 1 2) (zeros_translations 1 2) None = Ok out /\
     shape out = [2; 2; 1]).
Proof.
  split.
  - repeat split.
    destruct (forward_ok args_one float32 theta_zero ltac:(cbn; lia)
                (ones_single 1 1) (zeros_pairwise 1 1) (identity_rotations 2 1)
                (zeros_translations 2 1) None 1 1 eq_refl eq_refl I)
      as [p [out [_ [Eo _]]]].
    exists out. exact Eo.
  - split; [reflexivity | split; [reflexivity |]].
    eexists. split; reflexivity.
Qed.

(** C4, amended.  Shapes are checked only where an operation consumes
    them, and an axis that broadcasts is not checked at all.  A
    [single_repr] whose feature width is not [dim] fails at the first
    projection, before anything is computed; a [pairwise_repr] whose
    feature width is not [pairwise_repr_dim] fails at its projection, after
    the queries, keys, values and scalar logits; a [pairwise_repr] whose
    batch size differs from the one of [single_repr] (neither batch * heads
    being 1), or whose entity count differs from the one of [single_repr]
    (neither count being 1), fails where the logits are added, the shapes
    shown being those of the operands of the failing addition.  The shapes
    of rotations and translations are never looked at. *)
Theorem C4_mismatch_detection (a : Init.args) (dt : finfo) (theta : Parameters)
    (x_width x z_width z_batch z_count z rot trans rot' trans' : tensor)
    (mask : option btensor) (B B' N M d d' : nat) (pre pre' : list nat) :
  0 < Init.heads a ->
  shape x_width = pre ++ [d] -> d <> Init.dim a ->
  shape x = [B; N; Init.dim a] ->
  shape z_width = pre' ++ [d'] -> d' <> default (Init.pairwise_repr_dim a) (Init.dim a) ->
  shape z_batch = [B'; N; N; default (Init.pairwise_repr_dim a) (Init.dim a)] ->
  B' <> B -> B * Init.heads a <> 1 -> B' * Init.heads a <> 1 ->
  shape z_count = [B; M; M; default (Init.pairwise_repr_dim a) (Init.dim a)] ->
  M <> N -> M <> 1 -> N <> 1 ->
  forward (init a dt theta) x_width z rot trans mask
  = Err "to_scalar_q" [shape x_width; [Init.scalar_key_dim a * Init.heads a; Init.dim a]]
  /\
  (exists p ls,
     project (init a dt theta) x = Ok p /\
     attn_logits_scalar (init a dt theta) p = Ok ls /\
     forward (init a dt theta) x z_width rot trans mask
     = Err "to_pairwise_attn_bias"
           [shape z_width; [Init.heads a; default (Init.pairwise_repr_dim a) (Init.dim a)]])
  /\
  forward (init a dt theta) x z_batch rot trans mask
  = Err "attn_logits" [[B * Init.heads a; N; N]; [B' * Init.heads a; N; N]]
  /\
  forward (init a dt theta) x z_count rot trans mask
  = Err "attn_logits" [[B * Init.heads a; N; N]; [B * Init.heads a; M; M]]
  /\
  forward (init a dt theta) x z rot trans mask
  = forward (init a dt theta) x z rot' trans' mask.
Proof.
  intros HH Hxw Hd Hx Hzw Hd' Hzb HB HB1 HB'1 Hzc HMN HM HN.
  destruct (project_ok a dt theta HH x B N Hx) as [p [Ep Pp]].
  destruct (attn_logits_scalar_ok a dt theta p _ _ _
              (q_scalar_shape _ _ _ _ _ _ _ Pp) (k_scalar_shape _ _ _ _ _ _ _ Pp))
    as [ls [Es [Ss _]]].
  destruct (attn_logits_points_ok a dt theta p B N _
              (q_point_shape _ _ _ _ _ _ _ Pp) (k_point_shape _ _ _ _ _ _ _ Pp))
    as [lpt [Et _]].
  split; [|split; [|split; [|split]]].
  - unfold forward, attention, shape0.
    destruct (shape x_width) as [|n s] eqn:Esh.
    { symmetry in Hxw. apply app_eq_nil in Hxw. destruct Hxw as [_ Hxw]. discriminate Hxw. }
    cbn [bind]. unfold project, linear. rewrite Esh, Hxw, rev_unit.
    cbn [init to_scalar_q in_features out_features].
    apply Nat.eqb_neq in Hd. rewrite Hd. reflexivity.
  - exists p, ls. split; [exact Ep | split; [exact Es |]].
    unfold forward, attention, shape0. rewrite Hx. cbn [bind].
    rewrite Ep. cbn [bind]. rewrite Es. cbn [bind].
    unfold attn_logits_pairwise, linear. rewrite Hzw, rev_unit.
    cbn [init to_pairwise_attn_bias in_features out_features].
    apply Nat.eqb_neq in Hd'. rewrite Hd'. reflexivity.
  - destruct (attn_logits_pairwise_ok a dt theta z_batch B' N N Hzb) as [lp [El [Sl _]]].
    unfold forward, attention, shape0. rewrite Hx. cbn [bind].
    rewrite Ep. cbn [bind]. rewrite Es. cbn [bind]. rewrite El. cbn [bind].
    rewrite Et. cbn [bind].
    unfold combine_and_mask, broadcast2, broadcast_shapes. rewrite Ss, Sl.
    cbn [rev app broadcast_rev]. rewrite !bdim_refl.
    rewrite (bdim_none (B * Init.heads a) (B' * Init.heads a)) by (auto; nia).
    reflexivity.
  - destruct (attn_logits_pairwise_ok a dt theta z_count B M M Hzc) as [lp [El [Sl _]]].
    unfold forward, attention, shape0. rewrite Hx. cbn [bind].
    rewrite Ep. cbn [bind]. rewrite Es. cbn [bind]. rewrite El. cbn [bind].
    rewrite Et. cbn [bind].
    unfold combine_and_mask, broadcast2, broadcast_shapes. rewrite Ss, Sl.
    cbn [rev app broadcast_rev].
    rewrite (bdim_none N M) by auto. reflexivity.
  - reflexivity.
Qed.

Lemma C4_mismatch_detection_witness :
  forward (init args_one float32 theta_zero) (ones [2; 2; 2]) (zeros_pairwise 2 2)
          (identity_rotations 2 2) (zeros_translations 2 2) None
  = Err "to_scalar_q"
        [shape (ones [2; 2; 2]);
         [Init.scalar_key_dim args_one * Init.heads args_one; Init.dim args_one]]
  /\
  (exists p ls,
     project (init args_one float32 theta_zero) (ones_single 2 2) = Ok p /\
     attn_logits_scalar (init args_one float32 theta_zero) p = Ok ls /\
     forward (init args_one float32 theta_zero) (ones_single 2 2) (zeros [2; 2; 2; 3])
             (identity_rotations 2 2) (zeros_translations 2 2) None
     = Err "to_pairwise_attn_bias"
           [shape (zeros [2; 2; 2; 3]);
            [Init.heads args_one;
             default (Init.pairwise_repr_dim args_one) (Init.dim args_one)]])
  /\
  forward (init args_one float32 theta_zero) (ones_single 2 2) (zeros_pairwise 3 2)
          (identity_rotations 2 2) (zeros_translations 2 2) None
  = Err "attn_logits" [[2 * Init.heads args_one; 2; 2]; [3 * Init.heads args_one; 2; 2]]
  /\
  forward (init args_one float32 theta_zero) (ones_single 2 2) (zeros_pairwise 2 3)
          (identity_rotations 2 2) (zeros_translations 2 2) None
  = Err "attn_logits" [[2 * Init.heads args_one; 2; 2]; [2 * Init.heads args_one; 3; 3]]
  /\
  forward (init args_one float32 theta_zero) (ones_single 2 2) (zeros_pairwise 2 2)
          (identity_rotations 2 2) (zeros_translations 2 2) None
  = forward (init args_one float32 theta_zero) (ones_single 2 2) (zeros_pairwise 2 2)
            (identity_rotations 5 7) (zeros_translations 5 7) None.
Proof.
  apply (C4_mismatch_detection args_one float32 theta_zero
           (ones [2; 2; 2]) (ones_single 2 2) (zeros [2; 2; 2; 3]) (zeros_pairwise 3 2)
           (zeros_pairwise 2 3) (zeros_pairwise 2 2)
           (identity_rotations 2 2) (zeros_translations 2 2)
           (identity_rotations 5 7) (zeros_translations 5 7) None
           2 3 2 3 2 3 [2; 2] [2; 2; 2]);
    try reflexivity; cbn; lia.
Defined.

(** ** The point logits *)

Lemma exp_1_gt_2 : (2 < exp 1)%R.
Proof. pose proof (exp_ineq1 1 ltac:(lra)). lra. Qed.

(** The initial value of the stored precision maps to precision 1. *)
Lemma softplus_init (h : nat) : softplus (point_weight_init_value h) = 1%R.
Proof.
  pose proof exp_1_gt_2 as He.
  unfold softplus, point_weight_init_value.
  assert (Hlt : (ln (exp 1 - 1) < 1)%R).
  { pose proof (ln_increasing (exp 1 - 1) (exp 1) ltac:(lra) ltac:(lra)) as Hl.
    rewrite ln_exp in Hl. exact Hl. }
  destruct (Rlt_dec 20 (ln (exp 1 - 1))) as [Hc|_]; [lra|].
  rewrite exp_ln by lra.
  replace (1 + (exp 1 - 1))%R with (exp 1) by lra.
  apply ln_exp.
Qed.

(** What the source computes at an entry of the point logits: no factor
    [point_attn_logits_scale]. *)
Lemma logit_points_reading (a : Init.args) (dt : finfo) (theta : Parameters)
    (x : tensor) (B N : nat) (p : qkv) (b h i j : nat) :
  Projected a dt theta x B N p -> h < Init.heads a ->
  logit_points a theta p (b * Init.heads a + h) i j
  = (- 0.5 * (precision theta h * squared_distance a theta x b h i j))%R.
Proof.
  intros Pp Hh. unfold logit_points, squared_distance, precision.
  rewrite mod_head by assumption. f_equal.
  rewrite rsum_scal_r, Rmult_comm. f_equal.
  apply rsum_ext. intros c Hc. apply rsum_ext. intros d Hd.
  rewrite (q_point_val _ _ _ _ _ _ _ Pp), (k_point_val _ _ _ _ _ _ _ Pp).
  rewrite div_head, mod_head by assumption. reflexivity.
Qed.

Lemma point_logits_unscaled (a : Init.args) (dt : finfo) (theta : Parameters)
    (x : tensor) (B N : nat) :
  0 < Init.heads a ->
  shape x = [B; N; Init.dim a] ->
  exists p t,
    project (init a dt theta) x = Ok p /\
    Projected a dt theta x B N p /\
    attn_logits_points (init a dt theta) B p = Ok t /\
    shape t = [B * Init.heads a; N; N] /\
    forall b h i j, b < B -> h < Init.heads a -> i < N -> j < N ->
      val t [b * Init.heads a + h; i; j]
      = (- 0.5 * (precision theta h * squared_distance a theta x b h i j))%R.
Proof.
  intros HH Hx.
  destruct (project_ok a dt theta HH x B N Hx) as [p [Ep Pp]].
  destruct (attn_logits_points_ok a dt theta p B N _
              (q_point_shape _ _ _ _ _ _ _ Pp) (k_point_shape _ _ _ _ _ _ _ Pp))
    as [t [Et [St Vt]]].
  exists p, t.
  split; [exact Ep | split; [exact Pp | split; [exact Et | split; [exact St |]]]].
  intros b h i j Hb Hh Hi Hj.
  rewrite Vt by (try apply head_index_lt; assumption).
  apply (logit_points_reading a dt theta x B N p b h i j Pp Hh).
Qed.

(** C1.  The source leaves scale_p out.  One head, one point per entity,
    the point query of the single entity at (1, 0, 0) and its point key at
    the origin, precision 1: the squared distance is 1 and the point logit
    of the source is -0.5, not -0.5 * scale_p with
    scale_p = (3 * 1 * 4.5)^(-1/2). *)
Theorem C1_point_logit_misses_scale :
  exists p t,
    project (init args_one float32 theta_q) (ones_single 1 1) = Ok p /\
    attn_logits_points (init args_one float32 theta_q) 1 p = Ok t /\
    precision theta_q 0 = 1%R /\
    squared_distance args_one theta_q (ones_single 1 1) 0 0 0 0 = 1%R /\
    point_attn_logits_scale (init args_one float32 theta_q) = Rpower (3 * 1 * 4.5) (- 1 / 2) /\
    val t [0; 0; 0] = (- 0.5)%R /\
    val t [0; 0; 0]
    <> (- 0.5 * point_attn_logits_scale (init args_one float32 theta_q)
        * precision theta_q 0
        * squared_distance args_one theta_q (ones_single 1 1) 0 0 0 0)%R.
Proof.
  destruct (point_logits_unscaled args_one float32 theta_q (ones_single 1 1) 1 1
              ltac:(cbn; lia) eq_refl) as [p [t [Ep [_ [Et [_ Vt]]]]]].
  specialize (Vt 0 0 0 0 ltac:(lia) ltac:(cbn; lia) ltac:(lia) ltac:(lia)).
  cbn [Init.heads args_one Nat.mul Nat.add] in Vt.
  assert (Hprec : precision theta_q 0 = 1%R) by apply softplus_init.
  assert (Hdist : squared_distance args_one theta_q (ones_single 1 1) 0 0 0 0 = 1%R).
  { unfold squared_distance, point_query, point_key, rsum. cbn. unfold no_weight. lra. }
  assert (Hscale : point_attn_logits_scale (init args_one float32 theta_q)
                   = Rpower (3 * 1 * 4.5) (- 1 / 2)).
  { cbn. f_equal; lra. }
  exists p, t. repeat split; try assumption.
  - rewrite Vt, Hprec, Hdist. lra.
  - rewrite Vt, Hprec, Hdist, Hscale.
    pose proof (scale_lt_1 (3 * 1 * 4.5) ltac:(lra)) as Hs.
    replace (- 1 / 2)%R with (- 0.5)%R by lra. lra.
Qed.

(** ** The frame transform *)

(** C2.  The source does not transform the points.  One head, two
    entities whose point query and point key are both (1, 0, 0) in their
    local frames, identity rotations, entity 1 translated by (1, 0, 0):
    in the global frame the query of entity 0 and the key of entity 1 are
    at squared distance 1, but [apply_transform] hands the points back
    unchanged and the point logit of the pair is that of distance 0. *)
Theorem C2_points_not_transformed :
  exists p t,
    project (init args_one float32 theta_qk) (ones_single 1 2) = Ok p /\
    attn_logits_points (init args_one float32 theta_qk) 1 p = Ok t /\
    apply_transform (q_point p) (identity_rotations 1 2) (shift_second 1 2) = q_point p /\
    apply_transform (k_point p) (identity_rotations 1 2) (shift_second 1 2) = k_point p /\
    val (spec_to_global 1 (identity_rotations 1 2) (shift_second 1 2) (k_point p)) [0; 1; 0; 0]
    <> val (apply_transform (k_point p) (identity_rotations 1 2) (shift_second 1 2))
           [0; 1; 0; 0] /\
    spec_global_distance 1 (identity_rotations 1 2) (shift_second 1 2) p 0 0 1 0 = 1%R /\
    squared_distance args_one theta_qk (ones_single 1 2) 0 0 0 1 = 0%R /\
    val t [0; 0; 1] = 0%R.
Proof.
  destruct (point_logits_unscaled args_one float32 theta_qk (ones_single 1 2) 1 2
              ltac:(cbn; lia) eq_refl) as [p [t [Ep [Pp [Et [_ Vt]]]]]].
  specialize (Vt 0 0 0 1 ltac:(lia) ltac:(cbn; lia) ltac:(lia) ltac:(lia)).
  cbn [Init.heads args_one Nat.mul Nat.add] in Vt.
  assert (Hdist : squared_distance args_one theta_qk (ones_single 1 2) 0 0 0 1 = 0%R).
  { unfold squared_distance, point_query, point_key, rsum. cbn.
    unfold x_axis_weight. cbn. lra. }
  assert (Hq : forall i c, val (q_point p) [0; i; 0; c] = x_axis_weight c 0).
  { intros i c. rewrite (q_point_val _ _ _ _ _ _ _ Pp).
    unfold linear_val, rsum. cbn. lra. }
  assert (Hk : forall i c, val (k_point p) [0; i; 0; c] = x_axis_weight c 0).
  { intros i c. rewrite (k_point_val _ _ _ _ _ _ _ Pp).
    unfold linear_val, rsum. cbn. lra. }
  exists p, t. repeat split; try assumption.
  - unfold apply_transform, spec_to_global, rsum. cbn. rewrite !Hk.
    unfold x_axis_weight. cbn. lra.
  - unfold spec_global_distance, spec_to_global, rsum. cbn. rewrite !Hq, !Hk.
    unfold x_axis_weight. cbn. lra.
  - rewrite Vt, Hdist. lra.
Qed.

(** ** The attention weights *)

Section Softmax.

Variables (a : Init.args) (dt : finfo) (theta : Parameters).
Variables (p : qkv) (z : tensor) (mask : option btensor) (N : nat).

Local Abbreviation L := (logit a dt theta p z mask).
Local Abbreviation W := (attn_weight a dt theta p z mask N).

Lemma softmax_denominator_pos (bh i : nat) :
  0 < N -> (0 < rsum N (fun k => exp (L bh i k)))%R.
Proof. intros HN. apply rsum_pos; [exact HN | intros; apply exp_pos]. Qed.

Lemma attn_weight_pos (bh i j : nat) : 0 < N -> (0 < W bh i j)%R.
Proof.
  intros HN. unfold attn_weight. apply Rdiv_lt_0_compat.
  - apply exp_pos.
  - apply softmax_denominator_pos, HN.
Qed.

Lemma attn_weight_sum (bh i : nat) : 0 < N -> rsum N (fun j => W bh i j) = 1%R.
Proof.
  intros HN. unfold attn_weight. rewrite rsum_div.
  pose proof (softmax_denominator_pos bh i HN). field. lra.
Qed.


(** The weights of two keys of one row differ by the exponential of the
    difference of their logits. *)
Lemma attn_weight_ratio (bh i j k : nat) :
  0 < N -> W bh i j = (exp (L bh i j - L bh i k) * W bh i k)%R.
Proof.
  intros HN. unfold attn_weight.
  pose proof (softmax_denominator_pos bh i HN).
  unfold Rminus. rewrite exp_plus, exp_Ropp.
  pose proof (exp_pos (L bh i k)). field. split; lra.
Qed.

End Softmax.

Lemma row_max_ge (n : nat) (f : nat -> R) (k : nat) :
  k < n -> (f k <= row_max n f)%R.
Proof.
  intros Hk. unfold row_max.
  assert (Hin : In (f k) (map f (seq 0 n))).
  { apply in_map, in_seq. lia. }
  induction (map f (seq 0 n)) as [|y l IH]; [contradiction|].
  cbn [fold_right]. destruct Hin as [->|Hin].
  - apply Rmax_l.
  - eapply Rle_trans; [apply IH, Hin | apply Rmax_r].
Qed.


Lemma pair_valid_key_masked (a : Init.args) (m : btensor) (bh i j : nat) :
  bval m [bh / Init.heads a; j] = false -> pair_valid a (Some m) bh i j = false.
Proof. intros Hm. cbn [pair_valid]. rewrite Hm. apply andb_false_r. Qed.




(** ** Masked keys *)

Lemma float32_eps_bounds : (0 < finfo_eps float32 < 1)%R.
Proof.
  cbn [finfo_eps float32].
  assert (1 < 2 ^ 23)%R by lra.
  split.
  - apply Rinv_0_lt_compat. lra.
  - rewrite <- Rinv_1. apply Rinv_lt_contravar; lra.
Qed.

Lemma float32_max_lt : (finfo_max float32 < 2 ^ 128)%R.
Proof.
  cbn [finfo_max float32].
  assert (0 < / 2 ^ 23)%R by (apply Rinv_0_lt_compat; lra).
  assert (0 < 2 ^ 127)%R by lra.
  replace (2 ^ 128)%R with (2 * 2 ^ 127)%R by lra.
  nra.
Qed.

(** C5, as stated, fails: entity 0 valid with feature 2^65, entity 1
    padding; the point logit of the pair (0, 0) is -2^129, below the mask
    value -finfo.max of float32, so the masked key 1 receives the largest
    weight of the row of the valid query 0. *)
Lemma C5_counterexample :
  exists p w,
    attention (init args_one float32 theta_q) (huge_first 2) (zeros_pairwise 1 2)
              (Some (mask_first 2)) = Ok (p, w) /\
    bval (mask_first 2) [0; 0] = true /\
    bval (mask_first 2) [0; 1] = false /\
    ~ (val w [0%nat; 0%nat; 1%nat]
       <= finfo_eps float32 * row_max 2 (fun k => val w [0%nat; 0%nat; k]))%R.
Proof.
  destruct (attention_ok args_one float32 theta_q ltac:(cbn; lia)
              (huge_first 2) (zeros_pairwise 1 2) (Some (mask_first 2)) 1 2
              eq_refl eq_refl (conj eq_refl (or_introl eq_refl)))
    as [p [w [Ea [Pp [_ Vw]]]]].
  pose proof (Vw 0 0 0 ltac:(cbn; lia) ltac:(lia) ltac:(lia)) as V0.
  pose proof (Vw 0 0 1 ltac:(cbn; lia) ltac:(lia) ltac:(lia)) as V1.
  exists p, w. repeat split; try assumption.
  assert (HL0 : logit args_one float32 theta_q p (zeros_pairwise 1 2)
                      (Some (mask_first 2)) 0 0 0 = (- 2 ^ 129)%R).
  { unfold logit. change (pair_valid args_one (Some (mask_first 2)) 0 0 0) with true.
    cbn iota. unfold logit_sum.
    change (logit_points args_one theta_q p 0 0 0)
      with (logit_points args_one theta_q p (0 * Init.heads args_one + 0) 0 0).
    rewrite (logit_points_reading args_one float32 theta_q (huge_first 2) 1 2 p 0 0 0 0 Pp)
      by (cbn; lia).
    unfold precision. cbn [point_weights_value theta_q]. rewrite softplus_init.
    unfold logit_scalar, logit_pairwise, rsum.
    cbn [Init.scalar_key_dim args_one seq map fold_right].
    rewrite (q_scalar_val _ _ _ _ _ _ _ Pp), (k_scalar_val _ _ _ _ _ _ _ Pp).
    unfold squared_distance, point_query, point_key, linear_val, rsum. cbn.
    unfold no_weight. lra. }
  assert (HL1 : logit args_one float32 theta_q p (zeros_pairwise 1 2)
                      (Some (mask_first 2)) 0 0 1 = max_neg_value float32).
  { unfold logit. rewrite pair_valid_key_masked by reflexivity. reflexivity. }
  assert (Hpos : Rlt 0 (val w [0; 0; 1])).
  { rewrite V1. apply attn_weight_pos. lia. }
  assert (Hlt : Rlt (val w [0; 0; 0]) (val w [0; 0; 1])).
  { rewrite V0, V1 in *.
    rewrite (attn_weight_ratio _ _ _ _ _ _ 2 0 0 0 1) by lia.
    rewrite HL0, HL1.
    assert (exp (- 2 ^ 129 - max_neg_value float32) < 1)%R.
    { rewrite <- exp_0. apply exp_increasing. unfold max_neg_value.
      pose proof float32_max_lt. lra. }
    nra. }
  intros Hle. unfold row_max in Hle. cbn [seq map fold_right] in Hle.
  rewrite (Rmax_left (val w [0; 0; 1]) 0) in Hle by lra.
  rewrite (Rmax_right (val w [0; 0; 0]) (val w [0; 0; 1])) in Hle by lra.
  pose proof float32_eps_bounds. nra.
Qed.

(** C5, amended.  On a masked call that completes, the logit of an
    invalid key j in the row of a valid query i is the mask value
    -finfo.max, so its weight is exp(-finfo.max - l) times the weight of
    any valid key k, l being the logit of (i, k); it is at most machine
    epsilon times the largest weight of the row as soon as some valid key
    of the row has a logit of at least ln(1/eps) - finfo.max. *)
Theorem C5_masked_key_weight (a : Init.args) (dt : finfo) (theta : Parameters)
    (x z : tensor) (m : btensor) (B N bh i j k : nat) :
  0 < Init.heads a ->
  shape x = [B; N; Init.dim a] ->
  shape z = [B; N; N; default (Init.pairwise_repr_dim a) (Init.dim a)] ->
  mask_ok a (Some m) B N ->
  bh < B * Init.heads a -> i < N -> j < N -> k < N ->
  bval m [bh / Init.heads a; i] = true ->
  bval m [bh / Init.heads a; k] = true ->
  bval m [bh / Init.heads a; j] = false ->
  (0 < finfo_eps dt)%R ->
  exists p w,
    attention (init a dt theta) x z (Some m) = Ok (p, w) /\
    val w [bh; i; j]
    = (exp (max_neg_value dt - logit_sum a dt theta p z bh i k) * val w [bh; i; k])%R /\
    ((ln (/ finfo_eps dt) - finfo_max dt <= logit_sum a dt theta p z bh i k)%R ->
     (val w [bh; i; j] <= finfo_eps dt * row_max N (fun k' => val w [bh; i; k']))%R).
Proof.
  intros HH Hx Hz Hm Hbh Hi Hj Hk Hmi Hmk Hmj Heps.
  destruct (attention_ok a dt theta HH x z (Some m) B N Hx Hz Hm) as [p [w [Ea [_ [_ Vw]]]]].
  assert (HLj : logit a dt theta p z (Some m) bh i j = max_neg_value dt).
  { unfold logit. rewrite pair_valid_key_masked by exact Hmj. reflexivity. }
  assert (HLk : logit a dt theta p z (Some m) bh i k = logit_sum a dt theta p z bh i k).
  { unfold logit. cbn [pair_valid]. rewrite Hmi, Hmk. reflexivity. }
  assert (Hratio : val w [bh; i; j]
                   = (exp (max_neg_value dt - logit_sum a dt theta p z bh i k)
                      * val w [bh; i; k])%R).
  { rewrite !Vw by assumption.
    rewrite (attn_weight_ratio a dt theta p z (Some m) N bh i j k) by lia.
    rewrite HLj, HLk. reflexivity. }
  exists p, w. split; [exact Ea | split; [exact Hratio |]].
  intros Hl. rewrite Hratio.
  assert (Hwk : (0 < val w [bh; i; k])%R).
  { rewrite Vw by assumption. apply attn_weight_pos. lia. }
  pose proof (row_max_ge N (fun k' => val w [bh; i; k']) k Hk) as Hmax.
  cbn beta in Hmax.
  assert (He : (exp (max_neg_value dt - logit_sum a dt theta p z bh i k)
                <= finfo_eps dt)%R).
  { rewrite ln_Rinv in Hl by exact Heps.
    pose proof (exp_ln (finfo_eps dt) Heps) as Hexp.
    destruct (Rle_lt_or_eq_dec _ _ Hl) as [Hs|Hs].
    - pose proof (exp_increasing (max_neg_value dt - logit_sum a dt theta p z bh i k)
                    (ln (finfo_eps dt)) ltac:(unfold max_neg_value; lra)).
      lra.
    - replace (max_neg_value dt - logit_sum a dt theta p z bh i k)%R
        with (ln (finfo_eps dt)) by (unfold max_neg_value; lra).
      lra. }
  pose proof (exp_pos (max_neg_value dt - logit_sum a dt theta p z bh i k)).
  nra.
Qed.

Lemma C5_masked_key_weight_witness :
  exists p w,
    attention (init args_one float32 theta_zero) (ones_single 1 2) (zeros_pairwise 1 2)
              (Some (mask_first 2)) = Ok (p, w) /\
    val w [0; 0; 1]
    = (exp (max_neg_value float32
            - logit_sum args_one float32 theta_zero p (zeros_pairwise 1 2) 0 0 0)
       * val w [0%nat; 0%nat; 0%nat])%R /\
    ((ln (/ finfo_eps float32) - finfo_max float32
      <= logit_sum args_one float32 theta_zero p (zeros_pairwise 1 2) 0 0 0)%R ->
     (val w [0%nat; 0%nat; 1%nat]
      <= finfo_eps float32 * row_max 2 (fun k' => val w [0%nat; 0%nat; k']))%R).
Proof.
  apply (C5_masked_key_weight args_one float32 theta_zero (ones_single 1 2)
           (zeros_pairwise 1 2) (mask_first 2) 1 2 0 0 1 0).
  - cbn. lia.
  - reflexivity.
  - reflexivity.
  - split; [reflexivity | left; reflexivity].
  - cbn. lia.
  - lia.
  - lia.
  - lia.
  - reflexivity.
  - reflexivity.
  - reflexivity.
  - exact (proj1 float32_eps_bounds).
Defined.

(** ** Permutation of the entities *)

Section Equivariance.

Variables (a : Init.args) (dt : finfo) (theta : Parameters).
Variables (sigma : nat -> nat) (B N : nat).
Variables (x z : tensor) (mask : option btensor).
Variables (p p' : qkv).

Hypothesis sigma_perm : permutes N sigma.
Hypothesis Pp : Projected a dt theta x B N p.
Hypothesis Pp' : Projected a dt theta (permute_entities sigma x) B N p'.

Local Abbreviation x' := (permute_entities sigma x).
Local Abbreviation z' := (permute_pairs sigma z).
Local Abbreviation mask' := (option_map (permute_mask sigma) mask).

Lemma q_scalar_permuted (bh i d : nat) :
  val (q_scalar p') [bh; i; d] = val (q_scalar p) [bh; sigma i; d].
Proof.
  rewrite (q_scalar_val _ _ _ _ _ _ _ Pp'), (q_scalar_val _ _ _ _ _ _ _ Pp). reflexivity.
Qed.

Lemma k_scalar_permuted (bh i d : nat) :
  val (k_scalar p') [bh; i; d] = val (k_scalar p) [bh; sigma i; d].
Proof.
  rewrite (k_scalar_val _ _ _ _ _ _ _ Pp'), (k_scalar_val _ _ _ _ _ _ _ Pp). reflexivity.
Qed.

Lemma v_scalar_permuted (bh i d : nat) :
  val (v_scalar p') [bh; i; d] = val (v_scalar p) [bh; sigma i; d].
Proof.
  rewrite (v_scalar_val _ _ _ _ _ _ _ Pp'), (v_scalar_val _ _ _ _ _ _ _ Pp). reflexivity.
Qed.

Lemma q_point_permuted (bh i d c : nat) :
  val (q_point p') [bh; i; d; c] = val (q_point p) [bh; sigma i; d; c].
Proof.
  rewrite (q_point_val _ _ _ _ _ _ _ Pp'), (q_point_val _ _ _ _ _ _ _ Pp). reflexivity.
Qed.

Lemma k_point_permuted (bh i d c : nat) :
  val (k_point p') [bh; i; d; c] = val (k_point p) [bh; sigma i; d; c].
Proof.
  rewrite (k_point_val _ _ _ _ _ _ _ Pp'), (k_point_val _ _ _ _ _ _ _ Pp). reflexivity.
Qed.

Lemma v_point_permuted (bh i d c : nat) :
  val (v_point p') [bh; i; d; c] = val (v_point p) [bh; sigma i; d; c].
Proof.
  rewrite (v_point_val _ _ _ _ _ _ _ Pp'), (v_point_val _ _ _ _ _ _ _ Pp). reflexivity.
Qed.

Lemma logit_permuted (bh i j : nat) :
  logit a dt theta p' z' mask' bh i j = logit a dt theta p z mask bh (sigma i) (sigma j).
Proof.
  unfold logit.
  replace (pair_valid a mask' bh i j) with (pair_valid a mask bh (sigma i) (sigma j))
    by (destruct mask; reflexivity).
  destruct (pair_valid a mask bh (sigma i) (sigma j)); [| reflexivity].
  unfold logit_sum, logit_scalar, logit_points. f_equal; [f_equal |].
  - f_equal. apply rsum_ext. intros d _.
    rewrite q_scalar_permuted, k_scalar_permuted. reflexivity.
  - f_equal. apply rsum_ext. intros c _. f_equal. apply rsum_ext. intros d _.
    rewrite q_point_permuted, k_point_permuted. reflexivity.
Qed.

Lemma attn_weight_permuted (bh i j : nat) :
  attn_weight a dt theta p' z' mask' N bh i j
  = attn_weight a dt theta p z mask N bh (sigma i) (sigma j).
Proof.
  unfold attn_weight. rewrite logit_permuted. f_equal.
  rewrite (rsum_ext N _ (fun k => exp (logit a dt theta p z mask bh (sigma i) (sigma k))))
    by (intros k _; rewrite logit_permuted; reflexivity).
  apply (rsum_reindex N sigma (fun k => exp (logit a dt theta p z mask bh (sigma i) k))).
  exact sigma_perm.
Qed.

Lemma results_entry_permuted (w w' : nat -> nat -> nat -> R) (b n e : nat) :
  (forall bh i j, w' bh i j = w bh (sigma i) (sigma j)) ->
  results_entry a p' z' w' N b n e = results_entry a p z w N b (sigma n) e.
Proof.
  intros Hw. unfold results_entry.
  destruct (e <? Init.heads a * Init.scalar_value_dim a);
    [| destruct (e <? Init.heads a * Init.scalar_value_dim a
                      + Init.heads a * default (Init.pairwise_repr_dim a) (Init.dim a))].
  - rewrite <- (rsum_reindex N sigma
                  (fun j => (w _ (sigma n) j * val (v_scalar p) [_; j; _])%R) sigma_perm).
    apply rsum_ext. intros j _. rewrite Hw, v_scalar_permuted. reflexivity.
  - rewrite <- (rsum_reindex N sigma
                  (fun j => (w _ (sigma n) j * val z [b; sigma n; j; _])%R) sigma_perm).
    apply rsum_ext. intros j _. rewrite Hw. reflexivity.
  - rewrite <- (rsum_reindex N sigma
                  (fun j => (w _ (sigma n) j * val (v_point p) [_; j; _; _])%R) sigma_perm).
    apply rsum_ext. intros j _. rewrite Hw, v_point_permuted. reflexivity.
Qed.

Lemma output_entry_permuted (b n o : nat) :
  output_entry a dt theta p' z' (attn_weight a dt theta p' z' mask' N) N b n o
  = output_entry a dt theta p z (attn_weight a dt theta p z mask N) N b (sigma n) o.
Proof.
  unfold output_entry. f_equal. apply rsum_ext. intros e _. f_equal.
  apply results_entry_permuted. intros bh i j. apply attn_weight_permuted.
Qed.

End Equivariance.

Lemma mask_ok_permuted (a : Init.args) (sigma : nat -> nat) (mask : option btensor)
    (B N : nat) :
  mask_ok a mask B N -> mask_ok a (option_map (permute_mask sigma) mask) B N.
Proof. destruct mask; intros Hm; exact Hm. Qed.

(** C7.  Permuting the entity axis of [single_repr], [pairwise_repr]
    (both entity axes), [rotations], [translations] and [mask] by one
    permutation permutes the entity axis of the output the same way; when
    the masked call stops at [masked_fill] (B >= 2 and heads >= 2), so does
    the permuted one. *)
Theorem C7_permutation_equivariance (a : Init.args) (dt : finfo) (theta : Parameters)
    (sigma : nat -> nat) (x z rot trans : tensor) (mask : option btensor) (B N : nat) :
  0 < Init.heads a ->
  permutes N sigma ->
  shape x = [B; N; Init.dim a] ->
  shape z = [B; N; N; default (Init.pairwise_repr_dim a) (Init.dim a)] ->
  (mask_ok a mask B N ->
   exists out out',
     forward (init a dt theta) x z rot trans mask = Ok out /\
     forward (init a dt theta)
             (permute_entities sigma x) (permute_pairs sigma z)
             (permute_entities sigma rot) (permute_entities sigma trans)
             (option_map (permute_mask sigma) mask) = Ok out' /\
     shape out = [B; N; Init.dim a] /\
     shape out' = [B; N; Init.dim a] /\
     forall b n o, b < B -> n < N -> val out' [b; n; o] = val out [b; sigma n; o])
  /\
  (forall m, mask = Some m -> bshape m = [B; N] -> 2 <= B -> 2 <= Init.heads a ->
     forward (init a dt theta) x z rot trans mask
     = Err "masked_fill" [[B * Init.heads a; N; N]; [B; N; N]] /\
     forward (init a dt theta)
             (permute_entities sigma x) (permute_pairs sigma z)
             (permute_entities sigma rot) (permute_entities sigma trans)
             (option_map (permute_mask sigma) mask)
     = Err "masked_fill" [[B * Init.heads a; N; N]; [B; N; N]]).
Proof.
  intros HH Hs Hx Hz. split.
  - intros Hm.
    destruct (forward_ok a dt theta HH x z rot trans mask B N Hx Hz Hm)
      as [p [out [Pp [Eo [So Vo]]]]].
    destruct (forward_ok a dt theta HH
                (permute_entities sigma x) (permute_pairs sigma z)
                (permute_entities sigma rot) (permute_entities sigma trans)
                (option_map (permute_mask sigma) mask) B N Hx Hz
                (mask_ok_permuted a sigma mask B N Hm))
      as [p' [out' [Pp' [Eo' [So' Vo']]]]].
    exists out, out'. repeat split; try assumption.
    intros b n o Hb Hn.
    rewrite Vo' by assumption.
    rewrite Vo by (try apply (proj1 Hs); assumption).
    apply (output_entry_permuted a dt theta sigma B N x z mask p p' Hs Pp Pp').
  - intros m -> Hm HB HH2. split.
    + apply forward_mask_err; assumption.
    + apply (forward_mask_err a dt theta HH (permute_entities sigma x)
               (permute_pairs sigma z) _ _ (permute_mask sigma m) B N); assumption.
Qed.

Lemma swap01_permutes : permutes 2 swap01.
Proof. unfold permutes, swap01. split; intros; lia. Defined.

Lemma C7_permutation_equivariance_witness :
  exists out out',
    forward (init args_one float32 theta_q) (huge_first 2) (zeros_pairwise 1 2)
            (identity_rotations 1 2) (shift_second 1 2) (Some (mask_first 2)) = Ok out /\
    forward (init args_one float32 theta_q)
            (permute_entities swap01 (huge_first 2)) (permute_pairs swap01 (zeros_pairwise 1 2))
            (permute_entities swap01 (identity_rotations 1 2))
            (permute_entities swap01 (shift_second 1 2))
            (option_map (permute_mask swap01) (Some (mask_first 2))) = Ok out' /\
    shape out = [1; 2; Init.dim args_one] /\
    shape out' = [1; 2; Init.dim args_one] /\
    forall b n o, b < 1 -> n < 2 -> val out' [b; n; o] = val out [b; swap01 n; o].
Proof.
  apply (proj1 (C7_permutation_equivariance args_one float32 theta_q swap01
                  (huge_first 2) (zeros_pairwise 1 2) (identity_rotations 1 2)
                  (shift_second 1 2) (Some (mask_first 2)) 1 2
                  (Nat.lt_0_1 : 0 < Init.heads args_one) swap01_permutes eq_refl eq_refl)).
  split; [reflexivity | left; reflexivity].
Defined.

(** * Further properties of the source *)

(** ** The precision and the sign of the point logits *)

Lemma softplus_pos (x : R) : (0 < softplus x)%R.
Proof.
  unfold softplus. destruct (Rlt_dec 20 x) as [Hx|_]; [lra|].
  rewrite <- ln_1. apply ln_increasing; [lra|].
  pose proof (exp_pos x). lra.
Qed.

Lemma rsum_nonneg (n : nat) (f : nat -> R) :
  (forall i, i < n -> (0 <= f i)%R) -> (0 <= rsum n f)%R.
Proof.
  induction n as [|n IH]; intros Hf; [rewrite rsum_0; lra|].
  rewrite rsum_S. specialize (Hf n ltac:(lia)) as Hn.
  assert (0 <= rsum n f)%R by (apply IH; intros; apply Hf; lia). lra.
Qed.

Lemma rsum_nonneg_zero (n : nat) (f : nat -> R) :
  (forall i, i < n -> (0 <= f i)%R) ->
  (rsum n f = 0%R <-> forall i, i < n -> f i = 0%R).
Proof.
  induction n as [|n IH]; intros Hf.
  - split; [intros _ i Hi; lia | intros _; apply rsum_0].
  - rewrite rsum_S.
    assert (Hn : (0 <= rsum n f)%R) by (apply rsum_nonneg; intros; apply Hf; lia).
    specialize (Hf n ltac:(lia)) as Hfn.
    specialize (IH ltac:(intros; apply Hf; lia)).
    split.
    + intros Hs i Hi.
      assert (rsum n f = 0%R) by lra.
      destruct (Nat.eq_dec i n) as [->|Hne]; [lra|].
      apply IH; [assumption | lia].
    + intros Hz. rewrite (proj2 IH) by (intros; apply Hz; lia).
      rewrite (Hz n) by lia. lra.
Qed.

Lemma squared_distance_nonneg (a : Init.args) (theta : Parameters) (x : tensor)
    (b h i j : nat) :
  (0 <= squared_distance a theta x b h i j)%R.
Proof.
  unfold squared_distance. apply rsum_nonneg. intros c _.
  apply rsum_nonneg. intros d _. apply pow2_ge_0.
Qed.

Lemma squared_distance_zero (a : Init.args) (theta : Parameters) (x : tensor)
    (b h i j : nat) :
  squared_distance a theta x b h i j = 0%R <->
  forall d c, d < Init.point_key_dim a -> c < 3 ->
    point_query a theta x b h i d c = point_key a theta x b h j d c.
Proof.
  unfold squared_distance.
  rewrite rsum_nonneg_zero
    by (intros c _; apply rsum_nonneg; intros d _; apply pow2_ge_0).
  split.
  - intros Hz d c Hd Hc. specialize (Hz c Hc).
    rewrite rsum_nonneg_zero in Hz by (intros d' _; apply pow2_ge_0).
    specialize (Hz d Hd). cbn beta in Hz.
    assert (Hsq : ((point_query a theta x b h i d c - point_key a theta x b h j d c)
                   * (point_query a theta x b h i d c - point_key a theta x b h j d c))%R
                  = 0%R) by (rewrite <- Hz; ring).
    apply Rmult_integral in Hsq. lra.
  - intros He c Hc.
    rewrite rsum_nonneg_zero by (intros d' _; apply pow2_ge_0).
    intros d Hd. rewrite (He d c Hd Hc). ring.
Qed.

(** X1.  The precision that weights the point distances is never
    negative, whatever the stored value of [point_weights]: line 110 maps
    the parameter through softplus. *)
Theorem X1_precision_nonnegative (a : Init.args) (dt : finfo) (theta : Parameters) (h : nat) :
  (0 <= val (tmap softplus (point_weights (init a dt theta))) [h])%R.
Proof. cbn. apply Rlt_le, softplus_pos. Qed.

(** X2.  Every point logit is at most 0; it is 0 when each point query of
    the query entity coincides with the matching point key of the key
    entity; and within a row a key at a larger squared distance never has a
    larger point logit. *)
Theorem X2_point_logit_sign (a : Init.args) (dt : finfo) (theta : Parameters)
    (x : tensor) (B N : nat) :
  0 < Init.heads a ->
  shape x = [B; N; Init.dim a] ->
  exists p t,
    project (init a dt theta) x = Ok p /\
    attn_logits_points (init a dt theta) B p = Ok t /\
    forall b h i j, b < B -> h < Init.heads a -> i < N -> j < N ->
      (val t [(b * Init.heads a + h)%nat; i; j] <= 0)%R /\
      ((forall d c, d < Init.point_key_dim a -> c < 3 ->
          point_query a theta x b h i d c = point_key a theta x b h j d c) ->
       val t [(b * Init.heads a + h)%nat; i; j] = 0%R) /\
      (forall j', j' < N ->
         (squared_distance a theta x b h i j <= squared_distance a theta x b h i j')%R ->
         (val t [(b * Init.heads a + h)%nat; i; j'] <= val t [(b * Init.heads a + h)%nat; i; j])%R).
Proof.
  intros HH Hx.
  destruct (point_logits_unscaled a dt theta x B N HH Hx) as [p [t [Ep [_ [Et [_ Vt]]]]]].
  exists p, t. split; [exact Ep | split; [exact Et |]].
  intros b h i j Hb Hh Hi Hj.
  rewrite (Vt b h i j Hb Hh Hi Hj).
  pose proof (softplus_pos (point_weights_value theta h)) as Hprec.
  fold (precision theta h) in Hprec.
  pose proof (squared_distance_nonneg a theta x b h i j) as Hd.
  split; [nra | split].
  - intros Heq. apply squared_distance_zero in Heq. rewrite Heq. lra.
  - intros j' Hj' Hle. rewrite (Vt b h i j' Hb Hh Hi Hj'). nra.
Qed.

Lemma X2_point_logit_sign_witness :
  exists p t,
    project (init args_one float32 theta_q) (ones_single 1 2) = Ok p /\
    attn_logits_points (init args_one float32 theta_q) 1 p = Ok t /\
    forall b h i j, b < 1 -> h < Init.heads args_one -> i < 2 -> j < 2 ->
      (val t [(b * Init.heads args_one + h)%nat; i; j] <= 0)%R /\
      ((forall d c, d < Init.point_key_dim args_one -> c < 3 ->
          point_query args_one theta_q (ones_single 1 2) b h i d c
          = point_key args_one theta_q (ones_single 1 2) b h j d c) ->
       val t [(b * Init.heads args_one + h)%nat; i; j] = 0%R) /\
      (forall j', j' < 2 ->
         (squared_distance args_one theta_q (ones_single 1 2) b h i j
          <= squared_distance args_one theta_q (ones_single 1 2) b h i j')%R ->
         (val t [(b * Init.heads args_one + h)%nat; i; j']
          <= val t [(b * Init.heads args_one + h)%nat; i; j])%R).
Proof.
  apply (X2_point_logit_sign args_one float32 theta_q (ones_single 1 2) 1 2).
  - cbn. lia.
  - reflexivity.
Defined.

(** X3.  With [point_weights] at the value [__init__] gives it (line 54),
    the precision of every head is exactly 1: the initial value is the
    inverse softplus of 1. *)
Theorem X3_initial_precision (a : Init.args) (dt : finfo) (theta : Parameters) (h : nat) :
  (forall k, point_weights_value theta k = point_weight_init_value k) ->
  val (tmap softplus (point_weights (init a dt theta))) [h] = 1%R.
Proof. intros Hinit. cbn. rewrite Hinit. apply softplus_init. Qed.

Lemma X3_initial_precision_witness :
  val (tmap softplus (point_weights (init (Init.defaults 4) float32 theta_zero))) [0] = 1%R.
Proof.
  apply (X3_initial_precision (Init.defaults 4) float32 theta_zero 0).
  intros k. reflexivity.
Defined.

(** ** The pairwise logits *)

(** X4.  The pairwise logit at (batch b, head h, query i, key j) is the
    head-h output of the linear map on the pairwise feature of (i, j),
    bias included, divided by the square root of 3. *)
Theorem X4_pairwise_logit (a : Init.args) (dt : finfo) (theta : Parameters)
    (z : tensor) (B N : nat) :
  shape z = [B; N; N; default (Init.pairwise_repr_dim a) (Init.dim a)] ->
  exists t,
    attn_logits_pairwise (init a dt theta) z = Ok t /\
    shape t = [B * Init.heads a; N; N] /\
    forall b h i j, h < Init.heads a ->
      val t [b * Init.heads a + h; i; j]
      = ((rsum (default (Init.pairwise_repr_dim a) (Init.dim a))
               (fun c => val z [b; i; j; c] * W_pairwise theta h c)
          + b_pairwise theta h) / sqrt 3)%R.
Proof.
  intros Hz.
  destruct (attn_logits_pairwise_ok a dt theta z B N N Hz) as [t [Et [St Vt]]].
  exists t. split; [exact Et | split; [exact St |]].
  intros b h i j Hh. rewrite Vt. unfold logit_pairwise.
  rewrite div_head, mod_head by assumption.
  cbn [init pairwise_attn_logits_scale].
  rewrite scale_inv_sqrt by lra. reflexivity.
Qed.

Lemma X4_pairwise_logit_witness :
  exists t,
    attn_logits_pairwise (init args_two_heads float32 theta_zero) (zeros_pairwise 2 3) = Ok t /\
    shape t = [2 * Init.heads args_two_heads; 3; 3] /\
    forall b h i j, h < Init.heads args_two_heads ->
      val t [b * Init.heads args_two_heads + h; i; j]
      = ((rsum (default (Init.pairwise_repr_dim args_two_heads) (Init.dim args_two_heads))
               (fun c => val (zeros_pairwise 2 3) [b; i; j; c] * W_pairwise theta_zero h c)
          + b_pairwise theta_zero h) / sqrt 3)%R.
Proof.
  apply (X4_pairwise_logit args_two_heads float32 theta_zero (zeros_pairwise 2 3) 2 3).
  reflexivity.
Defined.

(** ** The output *)

(** X5.  On a [single_repr] of shape (B, N, dim) and a [pairwise_repr] of
    shape (B, N, N, pairwise_repr_dim), without a mask or with a mask of
    shape (B, N) when B = 1 or heads = 1, [forward] returns a tensor of
    shape (B, N, dim). *)
Theorem X5_output_shape (a : Init.args) (dt : finfo) (theta : Parameters)
    (x z rot trans : tensor) (mask : option btensor) (B N : nat) :
  0 < Init.heads a ->
  shape x = [B; N; Init.dim a] ->
  shape z = [B; N; N; default (Init.pairwise_repr_dim a) (Init.dim a)] ->
  mask_ok a mask B N ->
  exists out,
    forward (init a dt theta) x z rot trans mask = Ok out /\
    shape out = [B; N; Init.dim a].
Proof.
  intros HH Hx Hz Hm.
  destruct (forward_ok a dt theta HH x z rot trans mask B N Hx Hz Hm)
    as [p [out [_ [Eo [So _]]]]].
  exists out. split; assumption.
Qed.

Lemma X5_output_shape_witness :
  exists out,
    forward (init (Init.defaults 4) float32 theta_zero) (ones [1; 5; 4]) (zeros [1; 5; 5; 4])
            (identity_rotations 1 5) (zeros_translations 1 5) (Some (mask_first 5)) = Ok out /\
    shape out = [1; 5; Init.dim (Init.defaults 4)].
Proof.
  apply (X5_output_shape (Init.defaults 4) float32 theta_zero (ones [1; 5; 4])
           (zeros [1; 5; 5; 4]) (identity_rotations 1 5) (zeros_translations 1 5)
           (Some (mask_first 5)) 1 5).
  - cbn. lia.
  - reflexivity.
  - reflexivity.
  - split; [reflexivity | left; reflexivity].
Defined.

(** ** What an output entry depends on *)

Lemma results_entry_congr (a : Init.args) (p p2 : qkv) (z z2 : tensor)
    (w w2 : nat -> nat -> nat -> R) (N b b2 n e : nat) :
  e < Init.scalar_value_dim a * Init.heads a
      + default (Init.pairwise_repr_dim a) (Init.dim a) * Init.heads a
      + Init.point_value_dim a * Init.heads a * 3 ->
  (forall h j, h < Init.heads a -> j < N ->
     w (b * Init.heads a + h) n j = w2 (b2 * Init.heads a + h) n j) ->
  (forall h j d, h < Init.heads a -> j < N ->
     val (v_scalar p) [b * Init.heads a + h; j; d]
     = val (v_scalar p2) [b2 * Init.heads a + h; j; d]) ->
  (forall j d, j < N -> d < default (Init.pairwise_repr_dim a) (Init.dim a) ->
     val z [b; n; j; d] = val z2 [b2; n; j; d]) ->
  (forall h j d c, h < Init.heads a -> j < N ->
     val (v_point p) [b * Init.heads a + h; j; d; c]
     = val (v_point p2) [b2 * Init.heads a + h; j; d; c]) ->
  results_entry a p z w N b n e = results_entry a p2 z2 w2 N b2 n e.
Proof.
  intros He Hw Hv Hz Hpt. unfold results_entry.
  destruct (Nat.ltb_spec e (Init.heads a * Init.scalar_value_dim a)) as [H1|H1];
    [| destruct (Nat.ltb_spec e (Init.heads a * Init.scalar_value_dim a
                                 + Init.heads a
                                   * default (Init.pairwise_repr_dim a) (Init.dim a)))
         as [H2|H2]];
    apply rsum_ext; intros j Hj.
  - assert (e / Init.scalar_value_dim a < Init.heads a)
      by (apply Nat.Div0.div_lt_upper_bound; lia).
    rewrite Hw, Hv by assumption. reflexivity.
  - assert ((e - Init.heads a * Init.scalar_value_dim a)
            / default (Init.pairwise_repr_dim a) (Init.dim a) < Init.heads a)
      by (apply Nat.Div0.div_lt_upper_bound; lia).
    rewrite Hw, Hz; try assumption; [reflexivity |].
    apply Nat.mod_upper_bound. nia.
  - assert ((e - (Init.heads a * Init.scalar_value_dim a
                  + Init.heads a * default (Init.pairwise_repr_dim a) (Init.dim a)))
            / (Init.point_value_dim a * 3) < Init.heads a)
      by (apply Nat.Div0.div_lt_upper_bound; lia).
    rewrite Hw, Hpt by assumption. reflexivity.
Qed.

Lemma output_entry_congr (a : Init.args) (dt : finfo) (theta theta2 : Parameters)
    (p p2 : qkv) (z z2 : tensor) (w w2 : nat -> nat -> nat -> R) (N b b2 n o : nat) :
  (forall e, W_out theta o e = W_out theta2 o e) ->
  b_out theta o = b_out theta2 o ->
  (forall h j, h < Init.heads a -> j < N ->
     w (b * Init.heads a + h) n j = w2 (b2 * Init.heads a + h) n j) ->
  (forall h j d, h < Init.heads a -> j < N ->
     val (v_scalar p) [b * Init.heads a + h; j; d]
     = val (v_scalar p2) [b2 * Init.heads a + h; j; d]) ->
  (forall j d, j < N -> d < default (Init.pairwise_repr_dim a) (Init.dim a) ->
     val z [b; n; j; d] = val z2 [b2; n; j; d]) ->
  (forall h j d c, h < Init.heads a -> j < N ->
     val (v_point p) [b * Init.heads a + h; j; d; c]
     = val (v_point p2) [b2 * Init.heads a + h; j; d; c]) ->
  output_entry a dt theta p z w N b n o = output_entry a dt theta2 p2 z2 w2 N b2 n o.
Proof.
  intros HW Hb Hw Hv Hz Hpt. unfold output_entry. rewrite Hb. f_equal.
  cbn [init to_out in_features].
  apply rsum_ext. intros e He. rewrite HW. f_equal.
  apply results_entry_congr; assumption.
Qed.

(** Softmax does not see a shift common to the logits of a row. *)
Lemma softmax_shift (N : nat) (L L2 : nat -> R) (c : R) (j : nat) :
  0 < N -> (forall k, k < N -> L2 k = (L k + c)%R) -> j < N ->
  (exp (L2 j) / rsum N (fun k => exp (L2 k)))%R
  = (exp (L j) / rsum N (fun k => exp (L k)))%R.
Proof.
  intros HN Hs Hj.
  rewrite (rsum_ext N (fun k => exp (L2 k)) (fun k => (exp (L k) * exp c)%R))
    by (intros k Hk; rewrite Hs by exact Hk; apply exp_plus).
  rewrite rsum_scal_r, Hs, exp_plus by exact Hj.
  assert (0 < rsum N (fun k => exp (L k)))%R
    by (apply rsum_pos; [exact HN | intros; apply exp_pos]).
  pose proof (exp_pos c). field. split; lra.
Qed.

(** ** Batch elements do not interact *)

Section BatchSlice.

Variables (a : Init.args) (dt : finfo) (theta : Parameters).
Variables (x x2 z z2 : tensor) (mask mask2 : option btensor) (p p2 : qkv).
Variables (B B2 N b b2 : nat).

Hypothesis Pp : Projected a dt theta x B N p.
Hypothesis Pp2 : Projected a dt theta x2 B2 N p2.
Hypothesis x_agree : forall n c, n < N -> c < Init.dim a ->
  val x [b; n; c] = val x2 [b2; n; c].
Hypothesis z_agree : forall i j c, i < N -> j < N ->
  c < default (Init.pairwise_repr_dim a) (Init.dim a) ->
  val z [b; i; j; c] = val z2 [b2; i; j; c].
Hypothesis mask_agree : masks_agree N b b2 mask mask2.

Lemma linear_val_slice (l : Linear) (n o : nat) :
  in_features l = Init.dim a -> n < N ->
  linear_val l x [b; n; o] = linear_val l x2 [b2; n; o].
Proof.
  intros Hl Hn. unfold linear_val. cbn [removelast last app].
  rewrite (rsum_ext (in_features l) _ (fun c => (val x2 [b2; n; c] * weight l o c)%R))
    by (intros c Hc; rewrite x_agree by (try assumption; lia); reflexivity).
  reflexivity.
Qed.

Lemma logit_slice (h i j : nat) :
  h < Init.heads a -> i < N -> j < N ->
  logit a dt theta p z mask (b * Init.heads a + h) i j
  = logit a dt theta p2 z2 mask2 (b2 * Init.heads a + h) i j.
Proof.
  intros Hh Hi Hj. unfold logit.
  replace (pair_valid a mask2 (b2 * Init.heads a + h) i j)
    with (pair_valid a mask (b * Init.heads a + h) i j).
  2:{ unfold pair_valid, masks_agree in *.
      destruct mask as [m|], mask2 as [m2|]; try contradiction; [| reflexivity].
      rewrite !div_head by assumption.
      rewrite !mask_agree by assumption. reflexivity. }
  destruct (pair_valid a mask (b * Init.heads a + h) i j); [| reflexivity].
  unfold logit_sum, logit_scalar, logit_pairwise, logit_points.
  rewrite !div_head, !mod_head by assumption.
  f_equal; [f_equal |].
  - f_equal. apply rsum_ext. intros d _.
    rewrite (q_scalar_val _ _ _ _ _ _ _ Pp), (k_scalar_val _ _ _ _ _ _ _ Pp),
      (q_scalar_val _ _ _ _ _ _ _ Pp2), (k_scalar_val _ _ _ _ _ _ _ Pp2).
    rewrite !div_head, !mod_head by assumption.
    rewrite !linear_val_slice by (try assumption; reflexivity). reflexivity.
  - f_equal. unfold linear_val. cbn [removelast last app].
    cbn [init to_pairwise_attn_bias in_features weight bias]. f_equal.
    apply rsum_ext. intros c Hc. rewrite z_agree by assumption. reflexivity.
  - f_equal. apply rsum_ext. intros c _. f_equal. apply rsum_ext. intros d _.
    rewrite (q_point_val _ _ _ _ _ _ _ Pp), (k_point_val _ _ _ _ _ _ _ Pp),
      (q_point_val _ _ _ _ _ _ _ Pp2), (k_point_val _ _ _ _ _ _ _ Pp2).
    rewrite !div_head, !mod_head by assumption.
    rewrite !linear_val_slice by (try assumption; reflexivity). reflexivity.
Qed.

Lemma attn_weight_slice (h i j : nat) :
  h < Init.heads a -> i < N -> j < N ->
  attn_weight a dt theta p z mask N (b * Init.heads a + h) i j
  = attn_weight a dt theta p2 z2 mask2 N (b2 * Init.heads a + h) i j.
Proof.
  intros Hh Hi Hj. unfold attn_weight.
  rewrite logit_slice by assumption. f_equal.
  apply rsum_ext. intros k Hk. rewrite logit_slice by assumption. reflexivity.
Qed.

Lemma output_entry_slice (n o : nat) :
  n < N ->
  output_entry a dt theta p z (attn_weight a dt theta p z mask N) N b n o
  = output_entry a dt theta p2 z2 (attn_weight a dt theta p2 z2 mask2 N) N b2 n o.
Proof.
  intros Hn. apply output_entry_congr; try reflexivity.
  - intros h j Hh Hj. apply attn_weight_slice; assumption.
  - intros h j d Hh Hj.
    rewrite (v_scalar_val _ _ _ _ _ _ _ Pp), (v_scalar_val _ _ _ _ _ _ _ Pp2).
    rewrite !div_head, !mod_head by assumption.
    apply linear_val_slice; [reflexivity | assumption].
  - intros j d Hj Hd. apply z_agree; assumption.
  - intros h j d c Hh Hj.
    rewrite (v_point_val _ _ _ _ _ _ _ Pp), (v_point_val _ _ _ _ _ _ _ Pp2).
    rewrite !div_head, !mod_head by assumption.
    apply linear_val_slice; [reflexivity | assumption].
Qed.

End BatchSlice.

(** X6.  The output of a batch element depends on that element alone:
    two calls (their batch sizes may differ) whose [single_repr],
    [pairwise_repr] and mask agree on batch element b of the first and b2 of
    the second return the same output for it.  In particular an element
    gets the same output alone as inside a batch. *)
Theorem X6_batch_elements_independent (a : Init.args) (dt : finfo) (theta : Parameters)
    (x x2 z z2 rot rot2 trans trans2 : tensor) (mask mask2 : option btensor)
    (B B2 N b b2 : nat) :
  0 < Init.heads a ->
  shape x = [B; N; Init.dim a] ->
  shape x2 = [B2; N; Init.dim a] ->
  shape z = [B; N; N; default (Init.pairwise_repr_dim a) (Init.dim a)] ->
  shape z2 = [B2; N; N; default (Init.pairwise_repr_dim a) (Init.dim a)] ->
  mask_ok a mask B N ->
  mask_ok a mask2 B2 N ->
  b < B -> b2 < B2 ->
  (forall n c, n < N -> c < Init.dim a -> val x [b; n; c] = val x2 [b2; n; c]) ->
  (forall i j c, i < N -> j < N -> c < default (Init.pairwise_repr_dim a) (Init.dim a) ->
     val z [b; i; j; c] = val z2 [b2; i; j; c]) ->
  masks_agree N b b2 mask mask2 ->
  exists out out2,
    forward (init a dt theta) x z rot trans mask = Ok out /\
    forward (init a dt theta) x2 z2 rot2 trans2 mask2 = Ok out2 /\
    forall n o, n < N -> val out [b; n; o] = val out2 [b2; n; o].
Proof.
  intros HH Hx Hx2 Hz Hz2 Hm Hm2 Hb Hb2 Hxa Hza Hma.
  destruct (forward_ok a dt theta HH x z rot trans mask B N Hx Hz Hm)
    as [p [out [Pp [Eo [_ Vo]]]]].
  destruct (forward_ok a dt theta HH x2 z2 rot2 trans2 mask2 B2 N Hx2 Hz2 Hm2)
    as [p2 [out2 [Pp2 [Eo2 [_ Vo2]]]]].
  exists out, out2. split; [exact Eo | split; [exact Eo2 |]].
  intros n o Hn. rewrite Vo, Vo2 by assumption.
  apply (output_entry_slice a dt theta x x2 z z2 mask mask2 p p2 B B2 N b b2
           Pp Pp2 Hxa Hza Hma n o Hn).
Qed.

Lemma X6_batch_elements_independent_witness :
  exists out out2,
    forward (init args_two_heads float32 theta_q) (ones_single 2 2) (zeros_pairwise 2 2)
            (identity_rotations 2 2) (zeros_translations 2 2) None = Ok out /\
    forward (init args_two_heads float32 theta_q) (ones_single 1 2) (zeros_pairwise 1 2)
            (identity_rotations 1 2) (shift_second 1 2) None = Ok out2 /\
    forall n o, n < 2 -> val out [1; n; o] = val out2 [0; n; o].
Proof.
  apply (X6_batch_elements_independent args_two_heads float32 theta_q
           (ones_single 2 2) (ones_single 1 2) (zeros_pairwise 2 2) (zeros_pairwise 1 2)
           (identity_rotations 2 2) (identity_rotations 1 2)
           (zeros_translations 2 2) (shift_second 1 2) None None 2 1 2 1 0).
  - cbn. lia.
  - reflexivity.
  - reflexivity.
  - reflexivity.
  - reflexivity.
  - exact I.
  - exact I.
  - lia.
  - lia.
  - intros n c _ _. reflexivity.
  - intros i j c _ _ _. reflexivity.
  - exact I.
Defined.

(** ** The bias of the pairwise projection *)

Lemma projected_values_agree (a : Init.args) (dt : finfo) (theta : Parameters)
    (x : tensor) (B N : nat) (p p2 : qkv) :
  Projected a dt theta x B N p -> Projected a dt theta x B N p2 ->
  (forall bh i d, val (q_scalar p) [bh; i; d] = val (q_scalar p2) [bh; i; d]) /\
  (forall bh i d, val (k_scalar p) [bh; i; d] = val (k_scalar p2) [bh; i; d]) /\
  (forall bh i d, val (v_scalar p) [bh; i; d] = val (v_scalar p2) [bh; i; d]) /\
  (forall bh i d c, val (q_point p) [bh; i; d; c] = val (q_point p2) [bh; i; d; c]) /\
  (forall bh i d c, val (k_point p) [bh; i; d; c] = val (k_point p2) [bh; i; d; c]) /\
  (forall bh i d c, val (v_point p) [bh; i; d; c] = val (v_point p2) [bh; i; d; c]).
Proof.
  intros Pp Pp2. repeat split; intros.
  - rewrite (q_scalar_val _ _ _ _ _ _ _ Pp), (q_scalar_val _ _ _ _ _ _ _ Pp2). reflexivity.
  - rewrite (k_scalar_val _ _ _ _ _ _ _ Pp), (k_scalar_val _ _ _ _ _ _ _ Pp2). reflexivity.
  - rewrite (v_scalar_val _ _ _ _ _ _ _ Pp), (v_scalar_val _ _ _ _ _ _ _ Pp2). reflexivity.
  - rewrite (q_point_val _ _ _ _ _ _ _ Pp), (q_point_val _ _ _ _ _ _ _ Pp2). reflexivity.
  - rewrite (k_point_val _ _ _ _ _ _ _ Pp), (k_point_val _ _ _ _ _ _ _ Pp2). reflexivity.
  - rewrite (v_point_val _ _ _ _ _ _ _ Pp), (v_point_val _ _ _ _ _ _ _ Pp2). reflexivity.
Qed.

(** The projections do not read the pairwise bias. *)
Lemma projected_set_pairwise_bias (a : Init.args) (dt : finfo) (theta : Parameters)
    (bias' : nat -> R) (x : tensor) (B N : nat) (p : qkv) :
  Projected a dt (set_pairwise_bias theta bias') x B N p -> Projected a dt theta x B N p.
Proof. intros [? ? ? ? ? ? ? ? ? ? ? ?]. constructor; assumption. Qed.

(** X7.  Without a mask the bias of [to_pairwise_attn_bias] has no effect
    on the output: it adds, per head, the same amount to every logit of a
    row, which the softmax cancels, and nothing else reads it. *)
Theorem X7_pairwise_bias_cancels (a : Init.args) (dt : finfo) (theta : Parameters)
    (bias' : nat -> R) (x z rot trans : tensor) (B N : nat) :
  0 < Init.heads a ->
  shape x = [B; N; Init.dim a] ->
  shape z = [B; N; N; default (Init.pairwise_repr_dim a) (Init.dim a)] ->
  exists out out2,
    forward (init a dt theta) x z rot trans None = Ok out /\
    forward (init a dt (set_pairwise_bias theta bias')) x z rot trans None = Ok out2 /\
    forall b n o, b < B -> n < N -> val out [b; n; o] = val out2 [b; n; o].
Proof.
  intros HH Hx Hz.
  destruct (forward_ok a dt theta HH x z rot trans None B N Hx Hz I)
    as [p [out [Pp [Eo [_ Vo]]]]].
  destruct (forward_ok a dt (set_pairwise_bias theta bias') HH x z rot trans None B N Hx Hz I)
    as [p2 [out2 [Pp2 [Eo2 [_ Vo2]]]]].
  apply projected_set_pairwise_bias in Pp2.
  destruct (projected_values_agree a dt theta x B N p p2 Pp Pp2)
    as [Hqs [Hks [Hvs [Hqp [Hkp Hvp]]]]].
  exists out, out2. split; [exact Eo | split; [exact Eo2 |]].
  intros b n o Hb Hn. rewrite Vo, Vo2 by assumption.
  apply output_entry_congr; try reflexivity.
  - intros h j Hh Hj. unfold attn_weight.
    set (bh := b * Init.heads a + h).
    symmetry.
    apply (softmax_shift N
             (fun k => logit a dt theta p z None bh n k)
             (fun k => logit a dt (set_pairwise_bias theta bias') p2 z None bh n k)
             ((bias' (bh mod Init.heads a) - b_pairwise theta (bh mod Init.heads a))
              * Rpower 3 (- 0.5))%R j); [lia | | exact Hj].
    intros k Hk. unfold logit, pair_valid, logit_sum, logit_scalar, logit_pairwise,
      logit_points, linear_val.
    cbn [removelast last app init to_pairwise_attn_bias in_features weight bias
         pairwise_attn_logits_scale scalar_attn_logits_scale set_pairwise_bias
         W_pairwise b_pairwise point_weights_value].
    rewrite (rsum_ext (Init.scalar_key_dim a)
               (fun d => (val (q_scalar p2) [bh; n; d] * val (k_scalar p2) [bh; k; d])%R)
               (fun d => (val (q_scalar p) [bh; n; d] * val (k_scalar p) [bh; k; d])%R))
      by (intros d _; rewrite Hqs, Hks; reflexivity).
    rewrite (rsum_ext 3
               (fun c => (rsum (Init.point_key_dim a)
                               (fun d => (val (q_point p2) [bh; n; d; c]
                                          - val (k_point p2) [bh; k; d; c]) ^ 2)
                          * softplus (point_weights_value theta (bh mod Init.heads a)))%R)
               (fun c => (rsum (Init.point_key_dim a)
                               (fun d => (val (q_point p) [bh; n; d; c]
                                          - val (k_point p) [bh; k; d; c]) ^ 2)
                          * softplus (point_weights_value theta (bh mod Init.heads a)))%R))
      by (intros c _; f_equal; apply rsum_ext; intros d _; rewrite Hqp, Hkp; reflexivity).
    ring.
  - intros h j d _ _. apply Hvs.
  - intros h j d c _ _. apply Hvp.
Qed.

Lemma X7_pairwise_bias_cancels_witness :
  exists out out2,
    forward (init args_two_heads float32 theta_q) (ones_single 2 2) (zeros_pairwise 2 2)
            (identity_rotations 2 2) (zeros_translations 2 2) None = Ok out /\
    forward (init args_two_heads float32 (set_pairwise_bias theta_q (fun h => INR h)))
            (ones_single 2 2) (zeros_pairwise 2 2)
            (identity_rotations 2 2) (zeros_translations 2 2) None = Ok out2 /\
    forall b n o, b < 2 -> n < 2 -> val out [b; n; o] = val out2 [b; n; o].
Proof.
  apply (X7_pairwise_bias_cancels args_two_heads float32 theta_q (fun h => INR h)
           (ones_single 2 2) (zeros_pairwise 2 2)
           (identity_rotations 2 2) (zeros_translations 2 2) 2 2).
  - cbn. lia.
  - reflexivity.
  - reflexivity.
Defined.

(** ** A mask without padding *)

(** X8.  A mask that marks every entity valid changes nothing: when the
    masked call completes (B = 1 or heads = 1) it returns the output of the
    call without a mask. *)
Theorem X8_all_valid_mask (a : Init.args) (dt : finfo) (theta : Parameters)
    (x z rot trans : tensor) (m : btensor) (B N : nat) :
  0 < Init.heads a ->
  shape x = [B; N; Init.dim a] ->
  shape z = [B; N; N; default (Init.pairwise_repr_dim a) (Init.dim a)] ->
  mask_ok a (Some m) B N ->
  (forall b n, b < B -> n < N -> bval m [b; n] = true) ->
  exists out out2,
    forward (init a dt theta) x z rot trans (Some m) = Ok out /\
    forward (init a dt theta) x z rot trans None = Ok out2 /\
    forall b n o, b < B -> n < N -> val out [b; n; o] = val out2 [b; n; o].
Proof.
  intros HH Hx Hz Hm Hall.
  destruct (forward_ok a dt theta HH x z rot trans (Some m) B N Hx Hz Hm)
    as [p [out [Pp [Eo [_ Vo]]]]].
  destruct (forward_ok a dt theta HH x z rot trans None B N Hx Hz I)
    as [p2 [out2 [Pp2 [Eo2 [_ Vo2]]]]].
  destruct (projected_values_agree a dt theta x B N p p2 Pp Pp2)
    as [Hqs [Hks [Hvs [Hqp [Hkp Hvp]]]]].
  exists out, out2. split; [exact Eo | split; [exact Eo2 |]].
  intros b n o Hb Hn. rewrite Vo, Vo2 by assumption.
  assert (HL : forall h i k, h < Init.heads a -> i < N -> k < N ->
             logit a dt theta p z (Some m) (b * Init.heads a + h) i k
             = logit a dt theta p2 z None (b * Init.heads a + h) i k).
  { intros h i k Hh Hi Hk. unfold logit. cbn [pair_valid].
    rewrite div_head by assumption. rewrite !Hall by assumption. cbn [andb].
    unfold logit_sum, logit_scalar, logit_points. f_equal; [f_equal |].
    - f_equal. apply rsum_ext. intros d _. rewrite Hqs, Hks. reflexivity.
    - f_equal. apply rsum_ext. intros c _. f_equal. apply rsum_ext. intros d _.
      rewrite Hqp, Hkp. reflexivity. }
  apply output_entry_congr; try reflexivity.
  - intros h j Hh Hj. unfold attn_weight. rewrite HL by assumption. f_equal.
    apply rsum_ext. intros k Hk. rewrite HL by assumption. reflexivity.
  - intros h j d _ _. apply Hvs.
  - intros h j d c _ _. apply Hvp.
Qed.

Lemma X8_all_valid_mask_witness :
  exists out out2,
    forward (init args_one float32 theta_q) (huge_first 3) (zeros_pairwise 1 3)
            (identity_rotations 1 3) (zeros_translations 1 3) (Some (mask_all 1 3)) = Ok out /\
    forward (init args_one float32 theta_q) (huge_first 3) (zeros_pairwise 1 3)
            (identity_rotations 1 3) (zeros_translations 1 3) None = Ok out2 /\
    forall b n o, b < 1 -> n < 3 -> val out [b; n; o] = val out2 [b; n; o].
Proof.
  apply (X8_all_valid_mask args_one float32 theta_q (huge_first 3) (zeros_pairwise 1 3)
           (identity_rotations 1 3) (zeros_translations 1 3) (mask_all 1 3) 1 3).
  - cbn. lia.
  - reflexivity.
  - reflexivity.
  - split; [reflexivity | left; reflexivity].
  - intros b n _ _. reflexivity.
Defined.

(** ** Aggregation is a weighted mean *)

Lemma rsum_le (n : nat) (f g : nat -> R) :
  (forall i, i < n -> (f i <= g i)%R) -> (rsum n f <= rsum n g)%R.
Proof.
  induction n as [|n IH]; intros Hfg; [rewrite !rsum_0; lra|].
  rewrite !rsum_S. specialize (Hfg n ltac:(lia)) as Hn.
  assert (rsum n f <= rsum n g)%R by (apply IH; intros; apply Hfg; lia). lra.
Qed.

Lemma weighted_mean_bounds (n : nat) (w v : nat -> R) (lo hi : R) :
  (forall j, j < n -> (0 < w j)%R) ->
  rsum n w = 1%R ->
  (forall j, j < n -> (lo <= v j <= hi)%R) ->
  (lo <= rsum n (fun j => w j * v j) <= hi)%R.
Proof.
  intros Hw Hs Hv. split.
  - replace lo with (rsum n w * lo)%R by (rewrite Hs; lra).
    rewrite <- rsum_scal_r. apply rsum_le. intros j Hj.
    specialize (Hw j Hj). specialize (Hv j Hj). nra.
  - replace hi with (rsum n w * hi)%R by (rewrite Hs; lra).
    rewrite <- rsum_scal_r. apply rsum_le. intros j Hj.
    specialize (Hw j Hj). specialize (Hv j Hj). nra.
Qed.

(** X9.  The three aggregations of lines 132-139 are weighted means over
    the key entities: each aggregated scalar value, pairwise feature and
    point coordinate lies between the smallest and the largest of the
    values it is taken over. *)
Theorem X9_aggregates_are_means (a : Init.args) (dt : finfo) (theta : Parameters)
    (x z : tensor) (mask : option btensor) (B N : nat) :
  0 < Init.heads a ->
  shape x = [B; N; Init.dim a] ->
  shape z = [B; N; N; default (Init.pairwise_repr_dim a) (Init.dim a)] ->
  mask_ok a mask B N ->
  exists p w rs wh rp rpt,
    attention (init a dt theta) x z mask = Ok (p, w) /\
    einsum_bij_bjd "results_scalar" w (v_scalar p) = Ok rs /\
    unfold_heads "attn_with_heads" (heads (init a dt theta)) w = Ok wh /\
    einsum_bhij_bijd "results_pairwise" wh z = Ok rp /\
    einsum_bij_bjdc "results_points" w (v_point p) = Ok rpt /\
    (forall b h i d lo hi, b < B -> h < Init.heads a -> i < N ->
       (forall j, j < N ->
          (lo <= val (v_scalar p) [(b * Init.heads a + h)%nat; j; d] <= hi)%R) ->
       (lo <= val rs [(b * Init.heads a + h)%nat; i; d] <= hi)%R) /\
    (forall b h i d lo hi, b < B -> h < Init.heads a -> i < N ->
       (forall j, j < N -> (lo <= val z [b; i; j; d] <= hi)%R) ->
       (lo <= val rp [b; h; i; d] <= hi)%R) /\
    (forall b h i d c lo hi, b < B -> h < Init.heads a -> i < N ->
       (forall j, j < N ->
          (lo <= val (v_point p) [(b * Init.heads a + h)%nat; j; d; c] <= hi)%R) ->
       (lo <= val rpt [(b * Init.heads a + h)%nat; i; d; c] <= hi)%R).
Proof.
  intros HH Hx Hz Hm.
  destruct (attention_ok a dt theta HH x z mask B N Hx Hz Hm) as [p [w [Ea [Pp [Sw Vw]]]]].
  assert (Hmean : forall bh i (v : nat -> R) lo hi, bh < B * Init.heads a -> i < N ->
            (forall j, j < N -> (lo <= v j <= hi)%R) ->
            (lo <= rsum N (fun j => val w [bh; i; j] * v j) <= hi)%R).
  { intros bh i v lo hi Hbh Hi Hv.
    apply weighted_mean_bounds; [| | exact Hv].
    - intros j Hj. rewrite Vw by assumption. apply attn_weight_pos. lia.
    - rewrite (rsum_ext N _ (fun j => attn_weight a dt theta p z mask N bh i j))
        by (intros j Hj; apply Vw; assumption).
      apply attn_weight_sum. lia. }
  exists p, w. do 4 eexists.
  split; [exact Ea |].
  split; [unfold einsum_bij_bjd; rewrite Sw, (v_scalar_shape _ _ _ _ _ _ _ Pp); run;
          reflexivity |].
  split; [unfold unfold_heads; rewrite Sw; cbn [init heads];
          rewrite (proj2 (Nat.ltb_lt 0 (Init.heads a)) HH), Nat.Div0.mod_mul,
            Nat.div_mul by lia;
          cbn [Nat.eqb andb]; reflexivity |].
  split; [unfold einsum_bhij_bijd; cbn [shape]; rewrite Hz; run; reflexivity |].
  split; [unfold einsum_bij_bjdc; rewrite Sw, (v_point_shape _ _ _ _ _ _ _ Pp); run;
          reflexivity |].
  split; [| split].
  - intros b h i d lo hi Hb Hh Hi Hv.
    assert (Hbh : b * Init.heads a + h < B * Init.heads a)
      by (apply head_index_lt; assumption).
    set (bh := b * Init.heads a + h) in *. cbn [val].
    rewrite (rsum_ext N _ (fun j => (val w [bh; i; j] * val (v_scalar p) [bh; j; d])%R))
      by (intros j Hj; idx; reflexivity).
    apply (Hmean bh i (fun j => val (v_scalar p) [bh; j; d]) lo hi); assumption.
  - intros b h i d lo hi Hb Hh Hi Hv.
    assert (Hbh : b * Init.heads a + h < B * Init.heads a)
      by (apply head_index_lt; assumption).
    set (bh := b * Init.heads a + h) in *. cbn [val].
    rewrite (rsum_ext N _ (fun j => (val w [bh; i; j] * val z [b; i; j; d])%R))
      by (intros j Hj; idx; reflexivity).
    apply (Hmean bh i (fun j => val z [b; i; j; d]) lo hi); assumption.
  - intros b h i d c lo hi Hb Hh Hi Hv.
    assert (Hbh : b * Init.heads a + h < B * Init.heads a)
      by (apply head_index_lt; assumption).
    set (bh := b * Init.heads a + h) in *. cbn [val].
    rewrite (rsum_ext N _ (fun j => (val w [bh; i; j] * val (v_point p) [bh; j; d; c])%R))
      by (intros j Hj; idx; reflexivity).
    apply (Hmean bh i (fun j => val (v_point p) [bh; j; d; c]) lo hi); assumption.
Qed.

Lemma X9_aggregates_are_means_witness :
  exists p w rs wh rp rpt,
    attention (init args_two_heads float32 theta_q) (ones_single 2 3) (zeros_pairwise 2 3) None
    = Ok (p, w) /\
    einsum_bij_bjd "results_scalar" w (v_scalar p) = Ok rs /\
    unfold_heads "attn_with_heads" (heads (init args_two_heads float32 theta_q)) w = Ok wh /\
    einsum_bhij_bijd "results_pairwise" wh (zeros_pairwise 2 3) = Ok rp /\
    einsum_bij_bjdc "results_points" w (v_point p) = Ok rpt /\
    (forall b h i d lo hi, b < 2 -> h < Init.heads args_two_heads -> i < 3 ->
       (forall j, j < 3 ->
          (lo <= val (v_scalar p) [(b * Init.heads args_two_heads + h)%nat; j; d] <= hi)%R) ->
       (lo <= val rs [(b * Init.heads args_two_heads + h)%nat; i; d] <= hi)%R) /\
    (forall b h i d lo hi, b < 2 -> h < Init.heads args_two_heads -> i < 3 ->
       (forall j, j < 3 -> (lo <= val (zeros_pairwise 2 3) [b; i; j; d] <= hi)%R) ->
       (lo <= val rp [b; h; i; d] <= hi)%R) /\
    (forall b h i d c lo hi, b < 2 -> h < Init.heads args_two_heads -> i < 3 ->
       (forall j, j < 3 ->
          (lo <= val (v_point p) [(b * Init.heads args_two_heads + h)%nat; j; d; c] <= hi)%R) ->
       (lo <= val rpt [(b * Init.heads args_two_heads + h)%nat; i; d; c] <= hi)%R).
Proof.
  apply (X9_aggregates_are_means args_two_heads float32 theta_q
           (ones_single 2 3) (zeros_pairwise 2 3) None 2 3).
  - cbn. lia.
  - reflexivity.
  - reflexivity.
  - exact I.
Defined.

(** ** Malformed masks and inputs *)

Section MaskErrors.

Variables (a : Init.args) (dt : finfo) (theta : Parameters).
Variables (x z : tensor) (B N : nat).

Hypothesis heads_pos : 0 < Init.heads a.
Hypothesis Hx : shape x = [B; N; Init.dim a].
Hypothesis Hz : shape z = [B; N; N; default (Init.pairwise_repr_dim a) (Init.dim a)].

(** Up to the masking step the call runs: what is left is the masking of
    three logit tensors of shape (B * heads, N, N). *)
Lemma attention_reaches_mask (mask : option btensor) :
  exists p ls lp lpt,
    shape ls = [B * Init.heads a; N; N] /\
    shape lp = [B * Init.heads a; N; N] /\
    shape lpt = [B * Init.heads a; N; N] /\
    attention (init a dt theta) x z mask
    = (attn_logits <- combine_and_mask (init a dt theta) ls lp lpt mask ;;
       attn <- softmax "softmax" attn_logits ;;
       Ok (p, attn)).
Proof.
  destruct (project_ok a dt theta heads_pos x B N Hx) as [p [Ep Pp]].
  destruct (attn_logits_scalar_ok a dt theta p _ _ _
              (q_scalar_shape _ _ _ _ _ _ _ Pp) (k_scalar_shape _ _ _ _ _ _ _ Pp))
    as [ls [Es [Ss _]]].
  destruct (attn_logits_pairwise_ok a dt theta z B N N Hz) as [lp [El [Sl _]]].
  destruct (attn_logits_points_ok a dt theta p B N _
              (q_point_shape _ _ _ _ _ _ _ Pp) (k_point_shape _ _ _ _ _ _ _ Pp))
    as [lpt [Et [St _]]].
  exists p, ls, lp, lpt. repeat split; try assumption.
  unfold attention, shape0. rewrite Hx. cbn [bind].
  rewrite Ep. cbn [bind]. rewrite Es. cbn [bind]. rewrite El. cbn [bind].
  rewrite Et. cbn [bind]. reflexivity.
Qed.

End MaskErrors.

(** X10.  A mask that is not a matrix (batch, entities) is rejected where
    line 122 rearranges it, after the three logit tensors have been
    computed and added; the error carries the mask's shape. *)
Theorem X10_mask_rank (a : Init.args) (dt : finfo) (theta : Parameters)
    (x z rot trans : tensor) (m : btensor) (B N : nat) :
  0 < Init.heads a ->
  shape x = [B; N; Init.dim a] ->
  shape z = [B; N; N; default (Init.pairwise_repr_dim a) (Init.dim a)] ->
  List.length (bshape m) <> 2 ->
  forward (init a dt theta) x z rot trans (Some m) = Err "mask" [bshape m].
Proof.
  intros HH Hx Hz Hlen.
  destruct (attention_reaches_mask a dt theta x z B N HH Hx Hz (Some m))
    as [p [ls [lp [lpt [Ss [Sl [St Ea]]]]]]].
  unfold forward. rewrite Ea.
  unfold combine_and_mask, broadcast2. rewrite Ss, Sl, St. run.
  unfold mask_rows.
  destruct (bshape m) as [|d0 [|d1 [|d2 s]]]; try reflexivity.
  cbn in Hlen. lia.
Qed.

Lemma X10_mask_rank_witness :
  forward (init args_one float32 theta_zero) (ones_single 1 2) (zeros_pairwise 1 2)
          (identity_rotations 1 2) (zeros_translations 1 2) (Some (mkB [2] (fun _ => true)))
  = Err "mask" [bshape (mkB [2] (fun _ => true))].
Proof.
  apply (X10_mask_rank args_one float32 theta_zero (ones_single 1 2) (zeros_pairwise 1 2)
           (identity_rotations 1 2) (zeros_translations 1 2) (mkB [2] (fun _ => true)) 1 2).
  - cbn. lia.
  - reflexivity.
  - reflexivity.
  - cbn. lia.
Defined.

(** X11.  A mask over M entities next to inputs over N entities (M and N
    different, neither 1) is rejected at [masked_fill], whatever its batch
    size: the pairwise mask (., M, M) does not broadcast against the logits
    (B * heads, N, N). *)
Theorem X11_mask_entity_count (a : Init.args) (dt : finfo) (theta : Parameters)
    (x z rot trans : tensor) (m : btensor) (B N Bm M : nat) :
  0 < Init.heads a ->
  shape x = [B; N; Init.dim a] ->
  shape z = [B; N; N; default (Init.pairwise_repr_dim a) (Init.dim a)] ->
  bshape m = [Bm; M] ->
  M <> N -> M <> 1 -> N <> 1 ->
  forward (init a dt theta) x z rot trans (Some m)
  = Err "masked_fill" [[B * Init.heads a; N; N]; [Bm; M; M]].
Proof.
  intros HH Hx Hz Hm HMN HM HN.
  destruct (attention_reaches_mask a dt theta x z B N HH Hx Hz (Some m))
    as [p [ls [lp [lpt [Ss [Sl [St Ea]]]]]]].
  unfold forward. rewrite Ea.
  unfold combine_and_mask, broadcast2, mask_rows, mask_cols, bbroadcast2, masked_fill.
  rewrite Ss, Sl, St, Hm. run.
  rewrite (bdim_none N M) by auto. reflexivity.
Qed.

Lemma X11_mask_entity_count_witness :
  forward (init args_one float32 theta_zero) (ones_single 1 2) (zeros_pairwise 1 2)
          (identity_rotations 1 2) (zeros_translations 1 2) (Some (mask_all 1 3))
  = Err "masked_fill" [[1 * Init.heads args_one; 2; 2]; [1; 3; 3]].
Proof.
  apply (X11_mask_entity_count args_one float32 theta_zero (ones_single 1 2)
           (zeros_pairwise 1 2) (identity_rotations 1 2) (zeros_translations 1 2)
           (mask_all 1 3) 1 2 1 3); try reflexivity; cbn; lia.
Defined.

(** X12.  A [single_repr] of the right feature width but without exactly
    one batch and one entity axis passes the six projections and is
    rejected by the first head split (line 97), which reports the shape of
    the projected queries. *)
Theorem X12_single_repr_rank (a : Init.args) (dt : finfo) (theta : Parameters)
    (x z rot trans : tensor) (mask : option btensor) (pre : list nat) :
  shape x = pre ++ [Init.dim a] ->
  List.length pre <> 2 ->
  forward (init a dt theta) x z rot trans mask
  = Err "rearrange q_scalar" [pre ++ [Init.scalar_key_dim a * Init.heads a]].
Proof.
  intros Hx Hlen.
  unfold forward, attention, shape0.
  destruct (shape x) as [|n s] eqn:Es.
  { symmetry in Hx. apply app_eq_nil in Hx. destruct Hx as [_ Hx]. discriminate Hx. }
  cbn [bind]. unfold project, linear. rewrite Es, Hx, rev_unit.
  cbn [init to_scalar_q to_scalar_k to_scalar_v to_point_q to_point_k to_point_v
       heads in_features out_features].
  rewrite Nat.eqb_refl. cbn [bind rev]. rewrite !rev_involutive.
  unfold split_heads. cbn [shape].
  destruct pre as [|d0 [|d1 [|d2 [|d3 l]]]]; try reflexivity.
  cbn in Hlen. lia.
Qed.

Lemma X12_single_repr_rank_witness :
  forward (init args_one float32 theta_zero) (ones [2; 1]) (zeros_pairwise 1 2)
          (identity_rotations 1 2) (zeros_translations 1 2) None
  = Err "rearrange q_scalar"
        [[2] ++ [Init.scalar_key_dim args_one * Init.heads args_one]].
Proof.
  apply (X12_single_repr_rank args_one float32 theta_zero (ones [2; 1]) (zeros_pairwise 1 2)
           (identity_rotations 1 2) (zeros_translations 1 2) None [2]).
  - reflexivity.
  - cbn. lia.
Defined.

(** ** Splitting and merging heads *)

(** X13.  Merging the heads (the pattern of line 143) undoes the head
    split of line 97: on a tensor (B, N, d * h) the two rearrangements
    compose to the identity, so head k owns the features k*d .. k*d + d - 1
    on both sides of the attention. *)
Theorem X13_merge_undoes_split (site site' : string) (h d B N : nat) (t : tensor) :
  0 < h ->
  shape t = [B; N; d * h] ->
  exists s r,
    split_heads site h t = Ok s /\
    shape s = [B * h; N; d] /\
    merge_heads site' h s = Ok r /\
    shape r = shape t /\
    forall b n e, e < d * h -> val r [b; n; e] = val t [b; n; e].
Proof.
  intros Hh Ht. do 2 eexists. split; [| split; [| split; [| split]]].
  - unfold split_heads. rewrite Ht.
    rewrite (proj2 (Nat.ltb_lt 0 h) Hh), Nat.Div0.mod_mul, Nat.div_mul by lia.
    cbn [Nat.eqb andb]. reflexivity.
  - reflexivity.
  - unfold merge_heads. cbn [shape].
    rewrite (proj2 (Nat.ltb_lt 0 h) Hh), Nat.Div0.mod_mul, Nat.div_mul by lia.
    cbn [Nat.eqb andb]. reflexivity.
  - cbn [shape]. rewrite Ht. f_equal. f_equal. f_equal. lia.
  - intros b n e He. cbn [val].
    assert (Hq : e / d < h) by (apply Nat.Div0.div_lt_upper_bound; lia).
    rewrite div_head, mod_head by exact Hq.
    f_equal. f_equal. f_equal. f_equal.
    pose proof (Nat.div_mod_eq e d). lia.
Qed.

Lemma X13_merge_undoes_split_witness :
  exists s r,
    split_heads "rearrange q_scalar" 8 (ones [2; 5; 16 * 8]) = Ok s /\
    shape s = [2 * 8; 5; 16] /\
    merge_heads "rearrange results_scalar" 8 s = Ok r /\
    shape r = shape (ones [2; 5; 16 * 8]) /\
    forall b n e, e < 16 * 8 -> val r [b; n; e] = val (ones [2; 5; 16 * 8]) [b; n; e].
Proof.
  apply (X13_merge_undoes_split "rearrange q_scalar" "rearrange results_scalar"
           8 16 2 5 (ones [2; 5; 16 * 8])).
  - lia.
  - reflexivity.
Defined.

(** X14.  The same for the point tensors: merging the point heads (line
    145) undoes the split of line 98 on a tensor (B, N, d * h * 3), each
    point keeping its three coordinates together. *)
Theorem X14_merge_undoes_point_split (site site' : string) (h d B N : nat) (t : tensor) :
  0 < h ->
  shape t = [B; N; d * h * 3] ->
  exists s r,
    split_point_heads site h 3 t = Ok s /\
    shape s = [B * h; N; d; 3] /\
    merge_point_heads site' h s = Ok r /\
    shape r = shape t /\
    forall b n e, e < d * h * 3 -> val r [b; n; e] = val t [b; n; e].
Proof.
  intros Hh Ht. do 2 eexists. split; [| split; [| split; [| split]]].
  - unfold split_point_heads. rewrite Ht.
    rewrite <- (Nat.mul_assoc d h 3).
    rewrite (proj2 (Nat.ltb_lt 0 (h * 3)) ltac:(lia)), Nat.Div0.mod_mul, Nat.div_mul by lia.
    cbn [Nat.eqb andb]. reflexivity.
  - reflexivity.
  - unfold merge_point_heads. cbn [shape].
    rewrite (proj2 (Nat.ltb_lt 0 h) Hh), Nat.Div0.mod_mul, Nat.div_mul by lia.
    cbn [Nat.eqb andb]. reflexivity.
  - cbn [shape]. rewrite Ht. f_equal. f_equal. f_equal. lia.
  - intros b n e He. cbn [val].
    assert (Hq : e / (d * 3) < h) by (apply Nat.Div0.div_lt_upper_bound; lia).
    rewrite div_head, mod_head by exact Hq.
    f_equal. f_equal. f_equal. f_equal.
    rewrite (Nat.mul_comm d 3), <- Nat.Div0.div_div.
    pose proof (Nat.div_mod_eq (e / 3) d). pose proof (Nat.div_mod_eq e 3). nia.
Qed.

Lemma X14_merge_undoes_point_split_witness :
  exists s r,
    split_point_heads "rearrange v_point" 8 3 (ones [2; 5; 4 * 8 * 3]) = Ok s /\
    shape s = [2 * 8; 5; 4; 3] /\
    merge_point_heads "rearrange results_points" 8 s = Ok r /\
    shape r = shape (ones [2; 5; 4 * 8 * 3]) /\
    forall b n e, e < 4 * 8 * 3 ->
      val r [b; n; e] = val (ones [2; 5; 4 * 8 * 3]) [b; n; e].
Proof.
  apply (X14_merge_undoes_point_split "rearrange v_point" "rearrange results_points"
           8 4 2 5 (ones [2; 5; 4 * 8 * 3])).
  - lia.
  - reflexivity.
Defined.

(** ** Heads do not interact before the output projection *)

Section HeadLocal.

Variables (a : Init.args) (dt : finfo) (theta theta2 : Parameters).
Variables (x z : tensor) (mask : option btensor) (p p2 : qkv) (B N h : nat).

Hypothesis h_lt : h < Init.heads a.
Hypothesis Pp : Projected a dt theta x B N p.
Hypothesis Pp2 : Projected a dt theta2 x B N p2.
Hypothesis agree : head_agrees a h theta theta2.

Lemma logit_head (b i j : nat) :
  logit a dt theta p z mask (b * Init.heads a + h) i j
  = logit a dt theta2 p2 z mask (b * Init.heads a + h) i j.
Proof.
  destruct agree as [Hq [Hk [Hpq [Hpk [Hw [Hb Hpw]]]]]].
  unfold logit.
  destruct (pair_valid a mask (b * Init.heads a + h) i j); [| reflexivity].
  unfold logit_sum, logit_scalar, logit_pairwise, logit_points.
  rewrite !div_head, !mod_head by assumption.
  f_equal; [f_equal |].
  - f_equal. apply rsum_ext. intros d Hd.
    rewrite (q_scalar_val _ _ _ _ _ _ _ Pp), (k_scalar_val _ _ _ _ _ _ _ Pp),
      (q_scalar_val _ _ _ _ _ _ _ Pp2), (k_scalar_val _ _ _ _ _ _ _ Pp2).
    rewrite !div_head, !mod_head by assumption.
    unfold linear_val.
    cbn [removelast last app init to_scalar_q to_scalar_k in_features weight bias].
    f_equal; apply rsum_ext; intros c _; [rewrite Hq | rewrite Hk];
      try assumption; reflexivity.
  - unfold linear_val.
    cbn [removelast last app init to_pairwise_attn_bias in_features weight bias
         pairwise_attn_logits_scale].
    rewrite Hb. f_equal. f_equal.
    apply rsum_ext. intros c _. rewrite Hw. reflexivity.
  - rewrite Hpw. f_equal. apply rsum_ext. intros c Hc. f_equal.
    apply rsum_ext. intros d Hd.
    rewrite (q_point_val _ _ _ _ _ _ _ Pp), (k_point_val _ _ _ _ _ _ _ Pp),
      (q_point_val _ _ _ _ _ _ _ Pp2), (k_point_val _ _ _ _ _ _ _ Pp2).
    rewrite !div_head, !mod_head by assumption.
    unfold linear_val.
    cbn [removelast last app init to_point_q to_point_k in_features weight bias].
    f_equal. f_equal; apply rsum_ext; intros e _; [rewrite Hpq | rewrite Hpk];
      try assumption; reflexivity.
Qed.

Lemma attn_weight_head (b i j : nat) :
  attn_weight a dt theta p z mask N (b * Init.heads a + h) i j
  = attn_weight a dt theta2 p2 z mask N (b * Init.heads a + h) i j.
Proof.
  unfold attn_weight. rewrite logit_head. f_equal.
  apply rsum_ext. intros k _. rewrite logit_head. reflexivity.
Qed.

End HeadLocal.

(** X15.  The attention weights of a head depend only on that head's
    parameters: two parameter sets that give head h the same scalar and
    point query/key projections, pairwise projection and stored precision
    give it the same attention weights, whatever they give the other
    heads. *)
Theorem X15_heads_independent (a : Init.args) (dt : finfo) (theta theta2 : Parameters)
    (x z : tensor) (mask : option btensor) (B N h : nat) :
  h < Init.heads a ->
  shape x = [B; N; Init.dim a] ->
  shape z = [B; N; N; default (Init.pairwise_repr_dim a) (Init.dim a)] ->
  mask_ok a mask B N ->
  head_agrees a h theta theta2 ->
  exists p w p2 w2,
    attention (init a dt theta) x z mask = Ok (p, w) /\
    attention (init a dt theta2) x z mask = Ok (p2, w2) /\
    forall b i j, b < B -> i < N -> j < N ->
      val w [b * Init.heads a + h; i; j] = val w2 [b * Init.heads a + h; i; j].
Proof.
  intros Hh Hx Hz Hm Hag.
  assert (HH : 0 < Init.heads a) by lia.
  destruct (attention_ok a dt theta HH x z mask B N Hx Hz Hm) as [p [w [Ea [Pp [_ Vw]]]]].
  destruct (attention_ok a dt theta2 HH x z mask B N Hx Hz Hm)
    as [p2 [w2 [Ea2 [Pp2 [_ Vw2]]]]].
  exists p, w, p2, w2. split; [exact Ea | split; [exact Ea2 |]].
  intros b i j Hb Hi Hj.
  rewrite Vw, Vw2 by (try apply head_index_lt; assumption).
  apply (attn_weight_head a dt theta theta2 x z mask p p2 B N h Hh Pp Pp2 Hag).
Qed.

Lemma X15_heads_independent_witness :
  exists p w p2 w2,
    attention (init args_two_heads float32 theta_zero) (ones_single 1 2) (zeros_pairwise 1 2)
              (Some (mask_first 2)) = Ok (p, w) /\
    attention (init args_two_heads float32
                    (mkParameters (fun o _ => INR (o - 1)) (fun o _ => INR (o - 1)) no_weight
                                  (fun k => if k =? 0 then point_weight_init_value 0 else 5%R)
                                  (fun o _ => INR (o - 2)) (fun o _ => INR (o - 2)) no_weight
                                  (fun k _ => INR k) (fun k => INR k)
                                  no_weight (fun _ => 0%R)))
              (ones_single 1 2) (zeros_pairwise 1 2) (Some (mask_first 2)) = Ok (p2, w2) /\
    forall b i j, b < 1 -> i < 2 -> j < 2 ->
      val w [b * Init.heads args_two_heads + 0; i; j]
      = val w2 [b * Init.heads args_two_heads + 0; i; j].
Proof.
  apply (X15_heads_independent args_two_heads float32 theta_zero _
           (ones_single 1 2) (zeros_pairwise 1 2) (Some (mask_first 2)) 1 2 0).
  - cbn. lia.
  - reflexivity.
  - reflexivity.
  - split; [reflexivity | left; reflexivity].
  - unfold head_agrees. cbn.
    repeat split; intros;
      repeat match goal with
             | Hlt : ?d < 1 |- _ => assert (d = 0) by lia; subst d; clear Hlt
             end;
      try reflexivity.
    + destruct e as [|[|[|e]]]; try lia; reflexivity.
    + destruct e as [|[|[|e]]]; try lia; reflexivity.
Defined.

(** ** A single entity *)

Lemma attn_weight_single (a : Init.args) (dt : finfo) (theta : Parameters)
    (p : qkv) (z : tensor) (mask : option btensor) (bh : nat) :
  attn_weight a dt theta p z mask 1 bh 0 0 = 1%R.
Proof.
  unfold attn_weight, rsum. cbn [seq map fold_right].
  pose proof (exp_pos (logit a dt theta p z mask bh 0 0)). field. lra.
Qed.

(** X16.  With a single entity (N = 1) every attention weight is 1, so the
    output is the output projection of that entity's own values and
    pairwise feature: it does not depend on the query and key projections,
    on the pairwise bias projection, on the precisions, or on the mask,
    even a mask that marks the entity as padding. *)
Theorem X16_single_entity (a : Init.args) (dt : finfo) (theta theta2 : Parameters)
    (x z rot trans : tensor) (mask mask2 : option btensor) (B : nat) :
  0 < Init.heads a ->
  shape x = [B; 1; Init.dim a] ->
  shape z = [B; 1; 1; default (Init.pairwise_repr_dim a) (Init.dim a)] ->
  mask_ok a mask B 1 ->
  mask_ok a mask2 B 1 ->
  (forall o c, W_scalar_v theta o c = W_scalar_v theta2 o c) ->
  (forall o c, W_point_v theta o c = W_point_v theta2 o c) ->
  (forall o c, W_out theta o c = W_out theta2 o c) ->
  (forall o, b_out theta o = b_out theta2 o) ->
  exists p w out out2,
    attention (init a dt theta) x z mask = Ok (p, w) /\
    (forall bh, bh < B * Init.heads a -> val w [bh; 0; 0] = 1%R) /\
    forward (init a dt theta) x z rot trans mask = Ok out /\
    forward (init a dt theta2) x z rot trans mask2 = Ok out2 /\
    forall b o, b < B -> val out [b; 0; o] = val out2 [b; 0; o].
Proof.
  intros HH Hx Hz Hm Hm2 HWv HWp HWo Hbo.
  destruct (attention_ok a dt theta HH x z mask B 1 Hx Hz Hm) as [p0 [w [Ea [_ [_ Vw]]]]].
  destruct (forward_ok a dt theta HH x z rot trans mask B 1 Hx Hz Hm)
    as [p [out [Pp [Eo [_ Vo]]]]].
  destruct (forward_ok a dt theta2 HH x z rot trans mask2 B 1 Hx Hz Hm2)
    as [p2 [out2 [Pp2 [Eo2 [_ Vo2]]]]].
  exists p0, w, out, out2.
  split; [exact Ea | split; [| split; [exact Eo | split; [exact Eo2 |]]]].
  - intros bh Hbh. rewrite Vw by (try assumption; lia). apply attn_weight_single.
  - intros b o Hb. rewrite Vo, Vo2 by (try assumption; lia).
    apply output_entry_congr.
    + intros e. apply HWo.
    + apply Hbo.
    + intros h j Hh Hj. assert (j = 0) by lia. subst j.
      rewrite !attn_weight_single. reflexivity.
    + intros h j d Hh Hj.
      rewrite (v_scalar_val _ _ _ _ _ _ _ Pp), (v_scalar_val _ _ _ _ _ _ _ Pp2).
      unfold linear_val. cbn [removelast last app init to_scalar_v in_features weight bias].
      apply rsum_ext. intros c _. rewrite HWv. reflexivity.
    + intros j d _ _. reflexivity.
    + intros h j d c Hh Hj.
      rewrite (v_point_val _ _ _ _ _ _ _ Pp), (v_point_val _ _ _ _ _ _ _ Pp2).
      unfold linear_val. cbn [removelast last app init to_point_v in_features weight bias].
      apply rsum_ext. intros e _. rewrite HWp. reflexivity.
Qed.

Lemma X16_single_entity_witness :
  exists p w out out2,
    attention (init args_one float32 theta_zero) (ones_single 1 1) (zeros_pairwise 1 1) None
    = Ok (p, w) /\
    (forall bh, bh < 1 * Init.heads args_one -> val w [bh; 0; 0] = 1%R) /\
    forward (init args_one float32 theta_zero) (ones_single 1 1) (zeros_pairwise 1 1)
            (identity_rotations 1 1) (zeros_translations 1 1) None = Ok out /\
    forward (init args_one float32 theta_qk) (ones_single 1 1) (zeros_pairwise 1 1)
            (identity_rotations 1 1) (zeros_translations 1 1)
            (Some (mkB [1; 1] (fun _ => false))) = Ok out2 /\
    forall b o, b < 1 -> val out [b; 0; o] = val out2 [b; 0; o].
Proof.
  apply (X16_single_entity args_one float32 theta_zero theta_qk
           (ones_single 1 1) (zeros_pairwise 1 1)
           (identity_rotations 1 1) (zeros_translations 1 1)
           None (Some (mkB [1; 1] (fun _ => false))) 1).
  - cbn. lia.
  - reflexivity.
  - reflexivity.
  - exact I.
  - split; [reflexivity | left; reflexivity].
  - intros o c. reflexivity.
  - intros o c. reflexivity.
  - intros o c. reflexivity.
  - intros o. reflexivity.
Defined.
